(** * Survey admin console: analytics derivation and survey builder

    A shallow embedding of the analytics page (the component with
    [handleRefresh], the header statistics, [levelAnswerCounts], the
    response distribution and [mostSkippedInputQuestions]) and of
    [SurveyPage.tsx] (the per-level editable working set and the batch
    create / update handlers).

    Conventions of the embedding.
    - A JavaScript string is a [string]; every character is read as one
      code unit below 256.
    - The counters [timesAnswered] and [timesSkipped] are non-negative
      integers, as the data model has them: [N] in the records, [Z] in the
      derived values (the code subtracts).
    - A finite double is its exact value, a rational ([Q]); [/], [*] and
      [-] round the exact result to the nearest double ([JS.round64]).
    - A double that holds an integer is kept as that integer ([Z]); the
      sums and the difference of counters round like every other
      operation ([JS.addInt], [JS.subInt]), so they are exact below 2^53
      and drift above.
    - A fetch is two events, its start and its settling; other events of
      the page can fall between the two ([Analytics.step]). *)

From Stdlib Require Import ZArith NArith QArith Qround Qpower Lqa.
From Stdlib Require Import List String Ascii Bool Lia.
From Stdlib Require Import Sorted Permutation.
Import ListNotations.

Local Open Scope Z_scope.

(** ** JavaScript primitives used by the components *)

Module JS.

(** [v || 0] on an optional counter. *)
Definition orZero (v : option N) : Z :=
  match v with
  | Some n => Z.of_N n
  | None => 0
  end.

(** *** Binary64 arithmetic

    The operations of the page stay in the normal range of the format (no
    overflow, no subnormal result), where rounding is: scale the exact
    value into [2^52, 2^53), round to the nearest integer with ties to
    the even one, scale back. *)

Definition roundHalfEven (x : Q) : Z :=
  let f := Qfloor x in
  match (x - inject_Z f ?= 1 # 2)%Q with
  | Lt => f
  | Gt => f + 1
  | Eq => if Z.even f then f else f + 1
  end.

(** For [x > 0], the exponent [e] with [2^e <= x < 2^(e+1)]. *)
Definition binade (x : Q) : Z :=
  let e0 := Z.log2 (Qnum x) - Z.log2 (Zpos (Qden x)) in
  if Qle_bool (2 ^ e0) x then e0 else e0 - 1.

Definition round64 (x : Q) : Q :=
  match (x ?= 0)%Q with
  | Eq => 0%Q
  | Gt => let e := binade x - 52 in
          (inject_Z (roundHalfEven (x / 2 ^ e)) * 2 ^ e)%Q
  | Lt => let e := binade (- x) - 52 in
          (- (inject_Z (roundHalfEven (- x / 2 ^ e)) * 2 ^ e))%Q
  end.

(** [a / b], [a * b] and [a - b] on doubles. *)
Definition fdiv (a b : Q) : Q := round64 (a / b).
Definition fmul (a b : Q) : Q := round64 (a * b).
Definition fsub (a b : Q) : Q := round64 (a - b).

(** The double nearest to an integer is an integer again
    ([roundInt_value]); [a + b] and [a - b] on doubles that hold
    integers. *)
Definition roundInt (n : Z) : Z := Qfloor (round64 (inject_Z n)).
Definition addInt (a b : Z) : Z := roundInt (a + b).
Definition subInt (a b : Z) : Z := roundInt (a - b).

(** [Math.round]: the nearest integer, halves towards +infinity. *)
Definition Math_round (x : Q) : Z := Qfloor (x + (1 # 2))%Q.

(** Truthiness of a string and of a possibly absent string. *)
Definition truthy (s : string) : bool := negb (s =? "")%string.

Definition truthyOpt (s : option string) : bool :=
  match s with
  | Some v => truthy v
  | None => false
  end.

(** [String.prototype.includes]: [sub] occurs in [s] at some position. *)
Fixpoint includes (s sub : string) : bool :=
  if String.prefix sub s then true
  else match s with
       | EmptyString => false
       | String _ s' => includes s' sub
       end.

(** White space and line terminators among the code units below 256:
    TAB, LF, VT, FF, CR, SP and NBSP. *)
Definition isWhiteSpace (c : ascii) : bool :=
  let n := N_of_ascii c in
  ((9 <=? n) && (n <=? 13) || (n =? 32) || (n =? 160))%N.

Fixpoint trimStart (s : string) : string :=
  match s with
  | EmptyString => EmptyString
  | String c s' => if isWhiteSpace c then trimStart s' else s
  end.

Fixpoint trimEnd (s : string) : string :=
  match s with
  | EmptyString => EmptyString
  | String c s' =>
      match trimEnd s' with
      | EmptyString => if isWhiteSpace c then EmptyString else String c EmptyString
      | t => String c t
      end
  end.

(** [String.prototype.trim]. *)
Definition trim (s : string) : string := trimEnd (trimStart s).

(** Decimal digits of a non-negative integer, most significant first;
    ["0"] for zero. *)
Definition digitChar (d : N) : ascii := ascii_of_N (48 + d).

Fixpoint digitsAux (fuel : nat) (n : N) (acc : string) : string :=
  match fuel with
  | O => acc
  | S fuel' =>
      let acc' := String (digitChar (n mod 10)) acc in
      if (n / 10 =? 0)%N then acc' else digitsAux fuel' (n / 10) acc'
  end.

Definition decimalDigits (n : N) : string :=
  digitsAux (S (N.to_nat (N.log2 n))) n EmptyString.

Fixpoint zeros (k : nat) : string :=
  match k with
  | O => EmptyString
  | S k' => String "0" (zeros k')
  end.

(** [Number.prototype.toFixed(f)] in fixed notation, the form it takes
    below 10^21: the integer [n] with [n / 10^f] nearest to the exact
    value of [x] (the larger one of two), its digits padded to [f + 1] and
    split by a dot before the last [f]; a leading minus for a negative
    [x]. *)
Definition toFixedAbs (f : nat) (x : Q) : string :=
  let n := Z.to_N (Qfloor (x * inject_Z (10 ^ Z.of_nat f) + (1 # 2))%Q) in
  let m := decimalDigits n in
  match f with
  | O => m
  | _ =>
      let k := String.length m in
      let m' := if (k <=? f)%nat then (zeros (f + 1 - k) ++ m)%string else m in
      let k' := if (k <=? f)%nat then (f + 1)%nat else k in
      (substring 0 (k' - f) m' ++ "." ++ substring (k' - f) f m')%string
  end.

Definition toFixed (f : nat) (x : Q) : string :=
  if Qle_bool 0 x then toFixedAbs f x
  else ("-" ++ toFixedAbs f (- x))%string.

(** [Number(s)] on the decimal literals [toFixed] produces for a
    non-negative number: digits, optionally a dot and more digits; the
    result is the double nearest to the decimal value.  [None] stands for
    NaN; signs, exponents, surrounding white space and the other literal
    forms are outside this function. *)
Definition digitVal (c : ascii) : option N :=
  let n := N_of_ascii c in
  if ((48 <=? n) && (n <=? 57))%N then Some (n - 48)%N else None.

Fixpoint digitsValue (s : string) (acc : N) : option N :=
  match s with
  | EmptyString => Some acc
  | String c s' =>
      match digitVal c with
      | Some d => digitsValue s' (10 * acc + d)%N
      | None => None
      end
  end.

Fixpoint splitDot (s : string) : string * option string :=
  match s with
  | EmptyString => (EmptyString, None)
  | String c s' =>
      if (c =? ".")%char then (EmptyString, Some s')
      else let (a, b) := splitDot s' in (String c a, b)
  end.

Definition Number (s : string) : option Q :=
  match splitDot s with
  | (a, None) =>
      match digitsValue a 0 with
      | Some i => Some (round64 (inject_Z (Z.of_N i)))
      | None => None
      end
  | (a, Some b) =>
      if ((a =? "") && (b =? ""))%string then None
      else
        match digitsValue a 0, digitsValue b 0 with
        | Some i, Some fr =>
            Some (round64
                    (inject_Z (Z.of_N i)
                     + inject_Z (Z.of_N fr)
                       / inject_Z (10 ^ Z.of_nat (String.length b))))
        | _, _ => None
        end
  end.

(** [a - b] on numbers that may be NaN. *)
Definition sub (a b : option Q) : option Q :=
  match a, b with
  | Some x, Some y => Some (fsub x y)
  | _, _ => None
  end.

(** [Array.prototype.sort(comparefn)].  The language requires a stable
    sort, so for a consistent comparator the result is the one of a
    stable insertion sort: an element moves behind [y] only when
    [comparefn x y > 0]; a NaN result counts as [+0].  A comparator that
    answers NaN for some pairs only is not consistent, and the order is
    then the engine's own. *)
Section Sort.
Context {A : Type} (comparefn : A -> A -> option Q).

Definition goesAfter (x y : A) : bool :=
  match comparefn x y with
  | Some v => negb (Qle_bool v 0)
  | None => false
  end.

Fixpoint insert (x : A) (l : list A) : list A :=
  match l with
  | [] => [x]
  | y :: l' => if goesAfter x y then y :: insert x l' else x :: l
  end.

Definition sort (l : list A) : list A := fold_right insert [] l.
End Sort.

End JS.

(** ** Vocabulary of the statements about strings and sorting *)

Section StringVocabulary.
Local Open Scope string_scope.

(** [marker] occurs somewhere in [s]. *)
Definition occursIn (marker s : string) : Prop :=
  exists before after, s = before ++ marker ++ after.

(** Every character of [s] is white space. *)
Fixpoint allWhiteSpace (s : string) : bool :=
  match s with
  | EmptyString => true
  | String c s' => JS.isWhiteSpace c && allWhiteSpace s'
  end.

(** One of the characters "0" to "9". *)
Definition isDigit (c : ascii) : bool :=
  ((48 <=? N_of_ascii c) && (N_of_ascii c <=? 57))%N.

Fixpoint allDigits (s : string) : bool :=
  match s with
  | EmptyString => true
  | String c s' => isDigit c && allDigits s'
  end.

(** The number of tenths [toFixed(1)] settles on. *)
Definition tenths (x : Q) : N :=
  Z.to_N (Qfloor (x * inject_Z (10 ^ Z.of_nat 1) + (1 # 2))%Q).



End StringVocabulary.

Section SortVocabulary.
Context {A : Type} (key : A -> Q).

(** [a] may stand before [b] when the keys descend. *)
Definition keyGe (a b : A) : Prop := (key b <= key a)%Q.

(** The key of [a] is the number [k]. *)
Definition keyIs (k : Q) (a : A) : bool := Qeq_bool (key a) k.

End SortVocabulary.

(** ** The analytics page *)

Module Analytics.

(** An embedded answer option; [isCorrect] is [None] when the flag is
    absent or not a boolean. *)
Record AnswerOption := mkAnswerOption {
  answer : string;
  isCorrect : option bool
}.

Record Question := mkQuestion {
  questionID : string;
  question : string;
  questionType : string;
  questionCategory : string;
  questionLevel : string;
  timesAnswered : N;
  timesSkipped : option N;
  answers : option (list AnswerOption)
}.

(** [q.timesAnswered || 0] and [q.timesSkipped || 0]. *)
Definition answeredOf (q : Question) : Z := JS.orZero (Some (timesAnswered q)).
Definition skippedOf (q : Question) : Z := JS.orZero (timesSkipped q).

(** *** Header statistics *)

Definition totalAnswered (questions : list Question) : Z :=
  fold_left (fun sum q => JS.addInt sum (answeredOf q)) questions 0.

Definition totalSkipped (questions : list Question) : Z :=
  fold_left (fun sum q => JS.addInt sum (skippedOf q)) questions 0.

Definition totalResponses (questions : list Question) : Z :=
  JS.addInt (totalAnswered questions) (totalSkipped questions).

(** *** Response distribution *)

Definition isInput (q : Question) : bool := (questionType q =? "Input")%string.

Definition inputQuestionsForPie (questions : list Question) : list Question :=
  filter isInput questions.

(** The two counters [correctResponses] and [incorrectResponses], threaded
    through the nested [forEach] loops as a pair.  They count elements of
    arrays held in memory, so [++] never reaches 2^53 and is exact. *)
Definition countAnswer (acc : Z * Z) (a : AnswerOption) : Z * Z :=
  match isCorrect a with
  | Some true => (fst acc + 1, snd acc)
  | Some false => (fst acc, snd acc + 1)
  | None => acc
  end.

Definition countQuestion (acc : Z * Z) (q : Question) : Z * Z :=
  match answers q with
  | Some l => fold_left countAnswer l acc
  | None => acc
  end.

Definition rawCounts (questions : list Question) : Z * Z :=
  fold_left countQuestion (inputQuestionsForPie questions) (0, 0).

Definition correctResponses (questions : list Question) : Z :=
  fst (rawCounts questions).

Definition incorrectResponses (questions : list Question) : Z :=
  snd (rawCounts questions).

Definition totalAnsweredFromInputs (questions : list Question) : Z :=
  correctResponses questions + incorrectResponses questions.

Definition finalCorrectResponses (questions : list Question) : Z :=
  if 0 <? totalAnsweredFromInputs questions
  then JS.Math_round
         (JS.fmul
            (JS.fdiv (inject_Z (correctResponses questions))
                     (inject_Z (totalAnsweredFromInputs questions)))
            (inject_Z (totalAnswered questions)))
  else 0.

Definition finalIncorrectResponses (questions : list Question) : Z :=
  JS.subInt (totalAnswered questions) (finalCorrectResponses questions).

(** The [data] series of the pie chart. *)
Definition responseDistributionData (questions : list Question) : list Z :=
  [finalCorrectResponses questions;
   finalIncorrectResponses questions;
   totalSkipped questions].

(** *** Overall skip rate *)

Definition overallSkipRate (questions : list Question) : string :=
  if 0 <? totalResponses questions
  then JS.toFixed 1
         (JS.fmul
            (JS.fdiv (inject_Z (totalSkipped questions))
                     (inject_Z (totalResponses questions)))
            100)
  else "0.0"%string.

(** *** Answers per level *)

Definition LEVELS : list string :=
  ["Beginner"; "Intermediate"; "Advanced"]%string.

Definition levelAnswerCounts (questions : list Question) : list Z :=
  map (fun level =>
         fold_left (fun sum q => JS.addInt sum (answeredOf q))
           (filter (fun q => (questionLevel q =? level)%string) questions)
           0)
      LEVELS.

(** *** Most skipped questions *)

(** [{...q, skipRate}]. *)
Record RankedQuestion := mkRanked {
  source : Question;
  skipRate : string
}.

Definition inputQuestions (questions : list Question) : list Question :=
  filter isInput questions.

Definition withSkipRate (q : Question) : RankedQuestion :=
  let total := JS.addInt (answeredOf q) (skippedOf q) in
  {| source := q;
     skipRate :=
       if 0 <? total
       then JS.toFixed 1
              (JS.fmul (JS.fdiv (inject_Z (skippedOf q)) (inject_Z total)) 100)
       else "0.0"%string |}.

(** The comparator [(a, b) => Number(b.skipRate) - Number(a.skipRate)]. *)
Definition bySkipRateDesc (a b : RankedQuestion) : option Q :=
  JS.sub (JS.Number (skipRate b)) (JS.Number (skipRate a)).

(** The array before [.slice(0, 3)]. *)
Definition rankedInputQuestions (questions : list Question)
  : list RankedQuestion :=
  JS.sort bySkipRateDesc (map withSkipRate (inputQuestions questions)).

Definition mostSkippedInputQuestions (questions : list Question)
  : list RankedQuestion :=
  firstn 3 (rankedInputQuestions questions).

(** *** View state *)

(** A submitted response; the page only stores these. *)
Record Answer := mkAnswer {
  answerID : string;
  questionId : string;
  createdAt : string
}.

Record State := mkState {
  questions : list Question;
  answersOf : list Answer;
  loading : bool;
  err : option string;
  isEmpty : bool
}.

(** The [useState] initial values. *)
Definition initialState : State :=
  {| questions := []; answersOf := []; loading := true;
     err := None; isEmpty := false |}.

(** What the awaited fetch did: it resolved with the two arrays, or it
    threw a value whose [message] may be absent. *)
Inductive FetchOutcome :=
| Resolved (fetchedQuestions : list Question) (fetchedAnswers : list Answer)
| Rejected (message : option string).

Definition noQuestionsMessage : string :=
  "No questions found in the database. Please add some questions first in the admin dashboard."%string.

(** The condition of the [catch] block; [?.] on an absent message gives
    a falsy [undefined]. *)
Definition isEmptySignal (message : option string) : bool :=
  match message with
  | Some m =>
      JS.includes m "404" || JS.includes m "No questions"
      || JS.includes m "empty"
  | None => false
  end.

(** The three setters before [try]. *)
Definition startFetch (st : State) : State :=
  {| questions := questions st; answersOf := answersOf st;
     loading := true; err := None; isEmpty := false |}.

(** [try] / [catch] / [finally] once the fetch has settled. *)
Definition settleFetch (st : State) (outcome : FetchOutcome) : State :=
  match outcome with
  | Resolved fetchedQuestions fetchedAnswers =>
      {| questions := fetchedQuestions; answersOf := fetchedAnswers;
         loading := false; err := err st;
         isEmpty := (List.length fetchedQuestions =? 0)%nat |}
  | Rejected message =>
      if isEmptySignal message
      then {| questions := []; answersOf := []; loading := false;
              err := Some noQuestionsMessage; isEmpty := true |}
      else {| questions := questions st; answersOf := answersOf st;
              loading := false; err := message; isEmpty := isEmpty st |}
  end.

(** A call of [handleRefresh] is not one step of the page: the three
    setters run when the button is clicked, the rest when the awaited
    promise settles, and the Refresh button of the header (it is on every
    view, the loading one too) can start another fetch in between.  The
    page therefore moves by two kinds of events. *)
Inductive Event :=
| Start
| Settle (outcome : FetchOutcome).

Definition step (st : State) (ev : Event) : State :=
  match ev with
  | Start => startFetch st
  | Settle outcome => settleFetch st outcome
  end.

Definition run (st : State) (events : list Event) : State :=
  fold_left step events st.

(** [handleRefresh] when nothing else happens while it awaits: its start
    directly followed by its settling. *)
Definition handleRefresh (st : State) (outcome : FetchOutcome) : State :=
  settleFetch (startFetch st) outcome.

(** The mount effect: without the stored flag [isAdmin = "true"] it only
    navigates away; otherwise [fetchData] runs, whose body is the one of
    [handleRefresh]. *)
Definition fetchData (st : State) (outcome : FetchOutcome) : State :=
  settleFetch (startFetch st) outcome.

Definition mountEffect (isAdmin : option string) (st : State)
    (outcome : FetchOutcome) : State :=
  match isAdmin with
  | Some flag => if (flag =? "true")%string then fetchData st outcome else st
  | None => st
  end.

(** Which of the four returns of the component is taken. *)
Inductive View :=
| LoadingView
| EmptyView
| ErrorView (message : string)
| ReadyView.

Definition render (st : State) : View :=
  if loading st then LoadingView
  else if isEmpty st then EmptyView
  else if JS.truthyOpt (err st) && negb (isEmpty st)
       then ErrorView (match err st with Some m => m | None => EmptyString end)
       else ReadyView.

(** *** Vocabulary of the statements about the page *)

(** The embedded options the two loops visit, and how many of them carry
    a given flag. *)
Definition optionsOf (q : Question) : list AnswerOption :=
  match answers q with
  | Some l => l
  | None => []
  end.

Definition embeddedOptions (questions : list Question) : list AnswerOption :=
  flat_map optionsOf (inputQuestionsForPie questions).

Definition sameFlag (a b : option bool) : bool :=
  match a, b with
  | Some x, Some y => Bool.eqb x y
  | None, None => true
  | _, _ => false
  end.

Definition hasFlag (flag : option bool) (a : AnswerOption) : bool :=
  sameFlag (isCorrect a) flag.

Definition flagged (flag : option bool) (l : list AnswerOption) : nat :=
  List.length (filter (hasFlag flag) l).

Definition sumZ (l : list Z) : Z := fold_right Z.add 0 l.

(** The sum of [timesAnswered] over the questions whose level is exactly
    [level]. *)
Definition answeredAt (level : string) (qs : list Question) : Z :=
  sumZ (map (fun q => Z.of_N (timesAnswered q))
          (filter (fun q => (questionLevel q =? level)%string) qs)).

(** The level of the question is one of the three fixed ones. *)
Definition recognizedLevel (q : Question) : bool :=
  existsb (fun level => (questionLevel q =? level)%string) LEVELS.

(** [Number(e.skipRate)], the key the comparator subtracts. *)
Definition numericSkipRate (e : RankedQuestion) : option Q :=
  JS.Number (skipRate e).




(** The questions of type [Input], in the order of the list, and the
    entries the spec ranks: each of them with its rate. *)
Definition inputsOf (qs : list Question) : list Question :=
  filter (fun q => if string_dec (questionType q) "Input" then true else false)
         qs.






(** An [Input] question with one option in four flagged correct, answered
    13510798882111490 times: a counter above 2^53 that a double holds. *)
Definition quarterCorrectInput : Question :=
  mkQuestion "h1" "which" "Input" "c" "Beginner" 13510798882111490 None
    (Some [mkAnswerOption "a" (Some true); mkAnswerOption "b" (Some false);
           mkAnswerOption "c" (Some false); mkAnswerOption "d" (Some false)]).

(** A question of the given level with the given answered counter. *)
Definition answeredAtLevel (level : string) (n : N) : Question :=
  mkQuestion "q" "text" "Mcq" "c" level n None None.

(** A multiple-choice question that was answered five times. *)
Definition answeredMcq : Question :=
  mkQuestion "m1" "pick one" "Mcq" "c" "Beginner" 5 None None.

(** An [Input] question whose only option carries no flag. *)
Definition unflaggedInput : Question :=
  mkQuestion "i1" "name it" "Input" "c" "Beginner" 1 None
    (Some [mkAnswerOption "x" None]).

End Analytics.

(** ** The survey builder ([SurveyPage.tsx]) *)

Module Survey.

Inductive Level := Beginner | Intermediate | Advanced.

Definition LEVELS : list Level := [Beginner; Intermediate; Advanced].

Definition levelName (lvl : Level) : string :=
  match lvl with
  | Beginner => "Beginner"
  | Intermediate => "Intermediate"
  | Advanced => "Advanced"
  end%string.

(** [LEVELS.includes(s)] together with the cast [s as Level]. *)
Definition asLevel (s : string) : option Level :=
  find (fun lvl => (levelName lvl =? s)%string) LEVELS.

Record AnswerOption := mkAnswerOption {
  answer : string;
  isCorrect : option bool
}.

Record Question := mkQuestion {
  _id : string;
  question : string;
  questionType : string;
  questionCategory : string;
  questionLevel : string;
  timesAnswered : N;
  timesSkipped : option N;
  answers : option (list AnswerOption)
}.

(** The object literal the page writes for a new or placeholder entry. *)
Definition newQuestion (category : string) (lvl : Level) : Question :=
  {| _id := ""; question := ""; questionType := "Input";
     questionCategory := category; questionLevel := levelName lvl;
     timesAnswered := 0; timesSkipped := None; answers := None |}.

Definition placeholder (lvl : Level) : Question := newQuestion "" lvl.

(** [Record<Level, Question[]>]. *)
Record QMap := mkQMap {
  beginner : list Question;
  intermediate : list Question;
  advanced : list Question
}.

Definition get (m : QMap) (lvl : Level) : list Question :=
  match lvl with
  | Beginner => beginner m
  | Intermediate => intermediate m
  | Advanced => advanced m
  end.

(** [{ ...prev, [level]: list }]. *)
Definition set (m : QMap) (lvl : Level) (list : list Question) : QMap :=
  match lvl with
  | Beginner => {| beginner := list; intermediate := intermediate m; advanced := advanced m |}
  | Intermediate => {| beginner := beginner m; intermediate := list; advanced := advanced m |}
  | Advanced => {| beginner := beginner m; intermediate := intermediate m; advanced := list |}
  end.

Definition emptyQMap : QMap :=
  {| beginner := []; intermediate := []; advanced := [] |}.

Inductive Mode := CreateMode | EditMode.

Record State := mkState {
  questionsByLevel : QMap;
  currentTab : Level;
  currentIndex : nat;
  mode : Mode;
  showDeleteDialog : bool;
  levelToDelete : Level;
  showUIImmediately : bool
}.

Definition initialState : State :=
  {| questionsByLevel := emptyQMap; currentTab := Beginner;
     currentIndex := 0; mode := EditMode; showDeleteDialog := false;
     levelToDelete := Beginner; showUIImmediately := false |}.

(** Calls to the persistence hook, in the order they are made. *)
Inductive ApiCall :=
| CreateQuestions (batch : list Question)
| UpdateQuestions (batch : list Question)
| DeleteQuestions (batch : list Question).

Definition withMap (st : State) (m : QMap) : State :=
  {| questionsByLevel := m; currentTab := currentTab st;
     currentIndex := currentIndex st; mode := mode st;
     showDeleteDialog := showDeleteDialog st;
     levelToDelete := levelToDelete st;
     showUIImmediately := showUIImmediately st |}.

Definition withCursor (st : State) (lvl : Level) (idx : nat) : State :=
  {| questionsByLevel := questionsByLevel st; currentTab := lvl;
     currentIndex := idx; mode := mode st;
     showDeleteDialog := showDeleteDialog st;
     levelToDelete := levelToDelete st;
     showUIImmediately := showUIImmediately st |}.

(** [updateTabQuestions]. *)
Definition updateTabQuestions (lvl : Level) (list : list Question)
    (st : State) : State :=
  withMap st (set (questionsByLevel st) lvl list).

(** [list.filter((_, i) => i !== idx)]. *)
Fixpoint removeAt {A : Type} (idx : nat) (l : list A) : list A :=
  match l, idx with
  | [], _ => []
  | _ :: l', O => l'
  | x :: l', S i => x :: removeAt i l'
  end.

(** [newList[idx] = v] on a copy, for an index inside the list. *)
Fixpoint replaceAt {A : Type} (idx : nat) (v : A) (l : list A) : list A :=
  match l, idx with
  | [], _ => []
  | _ :: l', O => v :: l'
  | x :: l', S i => x :: replaceAt i v l'
  end.

(** The first effect: one empty question per level, once. *)
Definition initialize (st : State) : State :=
  if showUIImmediately st then st
  else
    let emptyMap :=
      fold_left (fun m lvl => set m lvl [placeholder lvl]) LEVELS emptyQMap in
    {| questionsByLevel := emptyMap; currentTab := currentTab st;
       currentIndex := currentIndex st; mode := mode st;
       showDeleteDialog := showDeleteDialog st;
       levelToDelete := levelToDelete st;
       showUIImmediately := true |}.

(** The second effect: group the fetched questions by level, then make
    sure no level is left without an entry. *)
Definition populate (questions : list Question) (st : State) : State :=
  if negb (showUIImmediately st) || (List.length questions =? 0)%nat then st
  else
    let grouped :=
      fold_left
        (fun m q =>
           if JS.truthy (questionLevel q) then
             match asLevel (questionLevel q) with
             | Some lvl => set m lvl (get m lvl ++ [q])
             | None => m
             end
           else m)
        questions emptyQMap in
    let ensured :=
      fold_left
        (fun m lvl =>
           if (List.length (get m lvl) =? 0)%nat
           then set m lvl (get m lvl ++ [placeholder lvl])
           else m)
        LEVELS grouped in
    withMap st ensured.

Definition onAddQuestion (lvl : Level) (st : State) : State :=
  let list := get (questionsByLevel st) lvl in
  let lastCat :=
    match nth_error list (List.length list - 1) with
    | Some q => if JS.truthy (questionCategory q) then questionCategory q else ""%string
    | None => ""%string
    end in
  let newQ := newQuestion lastCat lvl in
  withCursor (updateTabQuestions lvl (list ++ [newQ]) st) lvl (List.length list).

(** [onDeleteCurrent].  With two or more entries and an index that
    addresses none of them, reading [toDelete._id] throws and the state
    stays as it was.  The awaited [deleteQuestions] is taken to resolve. *)
Definition onDeleteCurrent (st : State) : State * list ApiCall :=
  let list := get (questionsByLevel st) (currentTab st) in
  if (List.length list <=? 1)%nat then (st, [])
  else
    match nth_error list (currentIndex st) with
    | None => (st, [])
    | Some toDelete =>
        let calls :=
          if JS.truthy (_id toDelete) then [DeleteQuestions [toDelete]] else [] in
        let newList := removeAt (currentIndex st) list in
        let st' := updateTabQuestions (currentTab st) newList st in
        (withCursor st' (currentTab st') (Nat.max (currentIndex st' - 1) 0), calls)
    end.

Definition onDeleteAllQuestions (lvl : Level) (st : State) : State :=
  {| questionsByLevel := questionsByLevel st; currentTab := currentTab st;
     currentIndex := currentIndex st; mode := mode st;
     showDeleteDialog := true; levelToDelete := lvl;
     showUIImmediately := showUIImmediately st |}.

Definition confirmDeleteAllQuestions (st : State) : State * list ApiCall :=
  let list := get (questionsByLevel st) (levelToDelete st) in
  let toDelete := filter (fun q => JS.truthy (_id q)) list in
  let calls :=
    if (0 <? List.length toDelete)%nat then [DeleteQuestions toDelete] else [] in
  let st' := updateTabQuestions (levelToDelete st) [placeholder (levelToDelete st)] st in
  ({| questionsByLevel := questionsByLevel st'; currentTab := currentTab st';
      currentIndex := 0; mode := mode st'; showDeleteDialog := false;
      levelToDelete := levelToDelete st';
      showUIImmediately := showUIImmediately st' |}, calls).

(** The string-valued keys of [Question] the editor card writes. *)
Inductive Field :=
| F_id | FQuestion | FQuestionType | FQuestionCategory | FQuestionLevel.

(** [{ ...q, [field]: value }]. *)
Definition setField (q : Question) (field : Field) (value : string) : Question :=
  match field with
  | F_id =>
      mkQuestion value (question q) (questionType q) (questionCategory q)
        (questionLevel q) (timesAnswered q) (timesSkipped q) (answers q)
  | FQuestion =>
      mkQuestion (_id q) value (questionType q) (questionCategory q)
        (questionLevel q) (timesAnswered q) (timesSkipped q) (answers q)
  | FQuestionType =>
      mkQuestion (_id q) (question q) value (questionCategory q)
        (questionLevel q) (timesAnswered q) (timesSkipped q) (answers q)
  | FQuestionCategory =>
      mkQuestion (_id q) (question q) (questionType q) value
        (questionLevel q) (timesAnswered q) (timesSkipped q) (answers q)
  | FQuestionLevel =>
      mkQuestion (_id q) (question q) (questionType q) (questionCategory q)
        value (timesAnswered q) (timesSkipped q) (answers q)
  end.

(** [const { answers, ...rest } = q]. *)
Definition withoutAnswers (q : Question) : Question :=
  mkQuestion (_id q) (question q) (questionType q) (questionCategory q)
    (questionLevel q) (timesAnswered q) (timesSkipped q) None.

Definition isField (a b : Field) : bool :=
  match a, b with
  | F_id, F_id | FQuestion, FQuestion | FQuestionType, FQuestionType
  | FQuestionCategory, FQuestionCategory | FQuestionLevel, FQuestionLevel => true
  | _, _ => false
  end.

(** [onUpdateQuestion].  The handler belongs to the question card, which
    the layout renders only while [questions[currentIndex]] exists; for
    an index that addresses no entry the result is [None].  In the level
    branch both [updateTabQuestions] calls read [questionsByLevel] of the
    render that created the handler, and React applies the two updaters
    in order. *)
Definition onUpdateQuestion (field : Field) (value : string) (st : State)
  : option State :=
  let list := get (questionsByLevel st) (currentTab st) in
  match nth_error list (currentIndex st) with
  | None => None
  | Some q =>
      match (if isField field FQuestionLevel then asLevel value else None) with
      | Some newLevel =>
          let updated := setField q FQuestionLevel (levelName newLevel) in
          let oldList := removeAt (currentIndex st) list in
          let st1 := updateTabQuestions (currentTab st) oldList st in
          let st2 :=
            updateTabQuestions newLevel
              (get (questionsByLevel st) newLevel ++ [updated]) st1 in
          Some (withCursor st2 newLevel
                  (List.length (get (questionsByLevel st) newLevel)))
      | None =>
          let newQ :=
            if isField field FQuestionType then
              if (value =? "Input")%string
                 && match answers q with Some _ => true | None => false end
              then setField (withoutAnswers q) field value
              else setField q field value
            else setField q field value in
          Some (updateTabQuestions (currentTab st)
                  (replaceAt (currentIndex st) newQ list) st)
      end
  end.

(** The filter shared by [completedCount], [handleCreateNew] and
    [handleUpdate]. *)
Definition isComplete (q : Question) : bool :=
  JS.truthy (JS.trim (question q))
  && JS.truthy (questionCategory q)
  && JS.truthy (questionLevel q).

Definition completedCount (st : State) : nat :=
  List.length
    (filter isComplete
       (beginner (questionsByLevel st) ++ intermediate (questionsByLevel st)
        ++ advanced (questionsByLevel st))).

(** [confirmed] is the answer of [window.confirm]. *)
Definition handleCreateNew (confirmed : bool) (st : State) : list ApiCall :=
  if confirmed then
    let allQs :=
      filter isComplete
        (flat_map (fun lvl => get (questionsByLevel st) lvl) LEVELS) in
    [CreateQuestions allQs]
  else [].

Definition handleUpdate (confirmed : bool) (st : State) : list ApiCall :=
  if confirmed then
    let allQs :=
      filter isComplete
        (flat_map (fun lvl => get (questionsByLevel st) lvl) LEVELS) in
    [UpdateQuestions allQs]
  else [].

Definition switchToCreateMode (confirmed : bool) (st : State) : State :=
  if confirmed then
    let emptyMap :=
      fold_left (fun m lvl => set m lvl [placeholder lvl]) LEVELS emptyQMap in
    {| questionsByLevel := emptyMap; currentTab := currentTab st;
       currentIndex := 0; mode := CreateMode;
       showDeleteDialog := showDeleteDialog st;
       levelToDelete := levelToDelete st;
       showUIImmediately := showUIImmediately st |}
  else st.

(** Every level has an entry. *)
Definition everyLevelNonEmpty (m : QMap) : Prop :=
  forall lvl, get m lvl <> [].

(** *** Sample data *)

(** A saved Beginner question, the only one the backend returns. *)
Definition soleBeginnerQuestion : Question :=
  mkQuestion "q1" "Who wrote it?" "Input" "history" "Beginner" 0 None None.

(** The builder after start-up and after that one question has loaded. *)
Definition loadedBuilder : State :=
  populate [soleBeginnerQuestion] (initialize initialState).

End Survey.

(** ** The analytics page: tooltip, table and hints *)

Module AnalyticsWidgets.
Import Analytics.

Definition pieLabels : list string :=
  ["Correct Answers"; "Incorrect Answers"; "Skipped"]%string.

(** The [percentage] of the tooltip callback, for the hovered value
    [context.parsed] of the series [context.dataset.data]. *)
Definition tooltipPercentage (data : list Z) (parsed : Z) : string :=
  let total := fold_left (fun a b => JS.addInt a b) data 0 in
  if 0 <? total
  then JS.toFixed 1 (JS.fmul (JS.fdiv (inject_Z parsed) (inject_Z total)) 100)
  else "0.0"%string.

(** The tooltip text of the slice at [dataIndex]. *)
Definition tooltipLabel (questions : list Question) (dataIndex : nat)
  : option string :=
  let data := responseDistributionData questions in
  match nth_error pieLabels dataIndex, nth_error data dataIndex with
  | Some label, Some parsed =>
      Some (label ++ ": " ++ tooltipPercentage data parsed ++ "%")%string
  | _, _ => None
  end.

(** The first cell of a row: the question, cut after 40 characters. *)
Definition questionCell (text : string) : string :=
  if (40 <? String.length text)%nat
  then (substring 0 40 text ++ "...")%string
  else text.

(** The body of the "Most Skipped Questions" table. *)
Inductive TableBody :=
| NoQuestionsRow
| Rows (cells : list (string * string)).

Definition mostSkippedTable (questions : list Question) : TableBody :=
  if (List.length (inputQuestions questions) =? 0)%nat then NoQuestionsRow
  else Rows (map (fun e => (questionCell (question (source e)),
                            (skipRate e ++ "%")%string))
               (mostSkippedInputQuestions questions)).

(** The view after a fetch that settles directly after a start, read off
    the outcome alone. *)
Definition settledView (outcome : FetchOutcome) : View :=
  match outcome with
  | Resolved fetchedQuestions _ =>
      if (List.length fetchedQuestions =? 0)%nat then EmptyView else ReadyView
  | Rejected message =>
      if isEmptySignal message then EmptyView
      else match message with
           | Some m => if JS.truthy m then ErrorView m else ReadyView
           | None => ReadyView
           end
  end.

(** Whether the troubleshooting list is on screen: only inside the error
    return, for a message that names a network error. *)
Definition troubleshootingShown (st : State) : bool :=
  match render st with
  | ErrorView message => JS.includes message "Network error"
  | _ => false
  end.

End AnalyticsWidgets.

(** ** The survey builder: moving the cursor *)

Module SurveyNav.
Import Survey.

Definition onSelectQuestion (lvl : Level) (idx : nat) (st : State) : State :=
  withCursor st lvl idx.

(** The inline [onPrev] handed to the layout. *)
Definition onPrev (st : State) : State :=
  withCursor st (currentTab st) (Nat.max (currentIndex st - 1) 0).

(** The inline [onNext] handed to the layout.  On a level without entries
    the new index would be [-1]; the card that owns the handler is not
    rendered then, and the result is [None]. *)
Definition onNext (st : State) : option State :=
  let len := List.length (get (questionsByLevel st) (currentTab st)) in
  if (len =? 0)%nat then None
  else Some (withCursor st (currentTab st)
               (Nat.min (currentIndex st + 1) (len - 1))).

(** [onPrevQuestion] and [onNextQuestion], declared by the page. *)
Definition onPrevQuestion (st : State) : State :=
  if (0 <? currentIndex st)%nat
  then withCursor st (currentTab st) (currentIndex st - 1)
  else st.

Definition onNextQuestion (st : State) : State :=
  let list := get (questionsByLevel st) (currentTab st) in
  if (currentIndex st <? List.length list - 1)%nat
  then withCursor st (currentTab st) (currentIndex st + 1)
  else st.

(** One turn of the grouping loop of the populate effect. *)
Definition groupStep (m : QMap) (q : Question) : QMap :=
  if JS.truthy (questionLevel q) then
    match asLevel (questionLevel q) with
    | Some lvl => set m lvl (get m lvl ++ [q])
    | None => m
    end
  else m.

(** The cursor addresses an entry of the current level. *)
Definition cursorValid (st : State) : Prop :=
  (currentIndex st < List.length (get (questionsByLevel st) (currentTab st)))%nat.

(** The entries of all three levels, in the order of [LEVELS]. *)
Definition workingSet (st : State) : list Question :=
  flat_map (fun lvl => get (questionsByLevel st) lvl) LEVELS.

(** The questions fetched for one level, in the order of the fetch. *)
Definition fetchedAt (lvl : Level) (questions : list Question) : list Question :=
  filter (fun q => (questionLevel q =? levelName lvl)%string) questions.

End SurveyNav.

(** ** The layout of the builder ([SurveyLayout]) *)

Module Layout.
Import Survey.

(** What the "Question Content" block shows. *)
Inductive MainContent :=
| NoQuestionsYet
| Card (q : Question) (index : nat) (isFirst isLast : bool)
| Blank.

Definition mainContent (questions : list Question) (currentIndex : nat)
  : MainContent :=
  if (List.length questions =? 0)%nat then NoQuestionsYet
  else
    match nth_error questions currentIndex with
    | Some q =>
        Card q currentIndex (currentIndex =? 0)%nat
          (currentIndex =? List.length questions - 1)%nat
    | None => Blank
    end.

(** The page passes the list of the current tab and the cursor. *)
Definition pageContent (st : State) : MainContent :=
  mainContent (get (questionsByLevel st) (currentTab st)) (currentIndex st).

(** The two counters handed to the header: the complete questions of all
    levels, and the length of the current level's list. *)
Definition headerCompleted (st : State) : nat := completedCount st.

Definition headerTotal (st : State) : nat :=
  List.length (get (questionsByLevel st) (currentTab st)).

End Layout.

(** ** The second analytics page (the one with [doFetch]) *)

Module Dashboard.

Record Answer := mkAnswer {
  answerId : string;
  questionId : string;
  createdAt : option string
}.

(** [new Set(array)] as the list of its members in insertion order. *)
Definition setOf (l : list string) : list string :=
  fold_left
    (fun acc x => if existsb (String.eqb x) acc then acc else acc ++ [x])
    l [].

Section Dates.
(** [new Date(s).getTime()]: the time stamp in milliseconds, [None] for an
    invalid date. *)
Context (getTime : string -> option Q).

(** [new Date(a.createdAt || "").getTime()]. *)
Definition timeOf (a : Answer) : option Q :=
  match createdAt a with
  | Some s => if JS.truthy s then getTime s else getTime EmptyString
  | None => getTime EmptyString
  end.

(** The comparator [(a, b) => t2 - t1]. *)
Definition newestFirst (a b : Answer) : option Q :=
  JS.sub (timeOf b) (timeOf a).

Definition sortedAnswers (answers : list Answer) : list Answer :=
  JS.sort newestFirst answers.

Definition recentIds (answers : list Answer) : list string :=
  setOf (map questionId (firstn 5 (sortedAnswers answers))).

Record State := mkState {
  questions : list Survey.Question;
  answers : list Answer;
  loading : bool;
  err : option string;
  recentAnsweredIds : list string
}.

Definition initialState : State :=
  {| questions := []; answers := []; loading := true; err := None;
     recentAnsweredIds := [] |}.

Inductive FetchOutcome :=
| Resolved (fetchedQuestions : list Survey.Question) (fetchedAnswers : list Answer)
| Rejected (message : option string).

Definition doFetch (st : State) (outcome : FetchOutcome) : State :=
  match outcome with
  | Resolved fetchedQuestions fetchedAnswers =>
      {| questions := fetchedQuestions; answers := fetchedAnswers;
         loading := false; err := None;
         recentAnsweredIds := recentIds fetchedAnswers |}
  | Rejected message =>
      {| questions := questions st; answers := answers st;
         loading := false; err := message;
         recentAnsweredIds := recentAnsweredIds st |}
  end.

(** The three [onRefresh] handlers and "Try Again": the fetch is called and
    its result dropped in an empty [then]; no setter runs. *)
Definition onRefresh (st : State) (outcome : FetchOutcome) : State := st.

End Dates.

Inductive View :=
| LoadingView
| ErrorView (message : string)
| ReadyView.

Definition render (st : State) : View :=
  if loading st then LoadingView
  else match err st with
       | Some m => if JS.truthy m then ErrorView m else ReadyView
       | None => ReadyView
       end.

(** [a] is at least as recent as [b]. *)
Definition noOlder (getTime : string -> option Q) (a b : Answer) : Prop :=
  exists x y, timeOf getTime a = Some x /\ timeOf getTime b = Some y /\ (y <= x)%Q.

(** The answer carries a valid date. *)
Definition dated (getTime : string -> option Q) (a : Answer) : Prop :=
  exists x, timeOf getTime a = Some x.

Definition timeKey (getTime : string -> option Q) (a : Answer) : Q :=
  match timeOf getTime a with
  | Some x => x
  | None => 0
  end.

(** A clock for examples: the date string is a number of milliseconds. *)
Definition millis (s : string) : option Q :=
  match JS.digitsValue s 0 with
  | Some n => Some (inject_Z (Z.of_N n))
  | None => None
  end.

End Dashboard.

(** * Properties *)

(** ** Binary64 rounding *)

Section Binary64Facts.

Lemma inject_Z_nonneg z : 0 <= z -> (0 <= inject_Z z)%Q.
Proof. intros H. change 0%Q with (inject_Z 0). rewrite <- Zle_Qle. exact H. Qed.

Lemma inject_Z_pos z : 0 < z -> (0 < inject_Z z)%Q.
Proof. intros H. change 0%Q with (inject_Z 0). rewrite <- Zlt_Qlt. exact H. Qed.

(** Rounding to the nearest integer stays within one of the floor and
    never crosses an integer. *)
Lemma roundHalfEven_floor x : Qfloor x <= JS.roundHalfEven x <= Qfloor x + 1.
Proof.
  unfold JS.roundHalfEven.
  destruct (x - inject_Z (Qfloor x) ?= 1 # 2)%Q; [destruct (Z.even (Qfloor x))| |]; lia.
Qed.

Lemma roundHalfEven_ge x N : (inject_Z N <= x)%Q -> N <= JS.roundHalfEven x.
Proof.
  intros H. apply Qfloor_resp_le in H. rewrite Qfloor_Z in H.
  pose proof (roundHalfEven_floor x). lia.
Qed.

Lemma roundHalfEven_le x N : (x <= inject_Z N)%Q -> JS.roundHalfEven x <= N.
Proof.
  intros H. pose proof (Qfloor_resp_le _ _ H) as Hf. rewrite Qfloor_Z in Hf.
  destruct (Z.eq_dec (Qfloor x) N) as [He|Hne].
  - unfold JS.roundHalfEven.
    assert (x - inject_Z (Qfloor x) < 1 # 2)%Q as Hlt.
    { rewrite He. lra. }
    rewrite (proj1 (Qlt_alt _ _) Hlt). lia.
  - pose proof (roundHalfEven_floor x). lia.
Qed.

Lemma two_pow_pos e : (0 < 2 ^ e)%Q.
Proof. apply Qpower_0_lt. reflexivity. Qed.

Lemma two_pow_Z n : 0 <= n -> (inject_Z (2 ^ n) == 2 ^ n)%Q.
Proof. intros H. apply (Zpower_Qpower 2 n H). Qed.

(** [binade] brackets a positive number between two powers of two. *)
Lemma binade_le x : (0 < x)%Q -> (2 ^ JS.binade x <= x)%Q.
Proof.
  intros Hx. unfold JS.binade.
  set (a := Z.log2 (Qnum x)). set (b := Z.log2 (Zpos (Qden x))).
  destruct (Qle_bool (2 ^ (a - b)) x) eqn:Hb.
  - apply Qle_bool_iff. exact Hb.
  - clear Hb.
    assert (0 < Qnum x) as Hn.
    { unfold Qlt in Hx. simpl in Hx. lia. }
    destruct (Z.log2_spec (Qnum x) Hn) as [Ha _]. fold a in Ha.
    destruct (Z.log2_spec (Zpos (Qden x)) ltac:(lia)) as [_ Hd]. fold b in Hd.
    assert (0 <= a) as Ha0 by apply Z.log2_nonneg.
    assert (0 <= b) as Hb0 by apply Z.log2_nonneg.
    replace (a - b - 1) with (a - Z.succ b) by lia.
    rewrite Qpower_minus by discriminate.
    rewrite <- (two_pow_Z a Ha0), <- (two_pow_Z (Z.succ b)) by lia.
    assert (0 < 2 ^ Z.succ b) as Hp by (apply Z.pow_pos_nonneg; lia).
    apply Qle_shift_div_r.
    + apply inject_Z_pos. exact Hp.
    + destruct x as [n d]. unfold Qle. simpl in *.
      remember (2 ^ a) as A. remember (2 ^ Z.succ b) as B. nia.
Qed.

Lemma binade_lt x : (0 < x)%Q -> (x < 2 ^ (JS.binade x + 1))%Q.
Proof.
  intros Hx. unfold JS.binade.
  set (a := Z.log2 (Qnum x)). set (b := Z.log2 (Zpos (Qden x))).
  destruct (Qle_bool (2 ^ (a - b)) x) eqn:Hb.
  - clear Hb.
    assert (0 < Qnum x) as Hn.
    { unfold Qlt in Hx. simpl in Hx. lia. }
    destruct (Z.log2_spec (Qnum x) Hn) as [_ Ha]. fold a in Ha.
    destruct (Z.log2_spec (Zpos (Qden x)) ltac:(lia)) as [Hd _]. fold b in Hd.
    assert (0 <= a) as Ha0 by apply Z.log2_nonneg.
    assert (0 <= b) as Hb0 by apply Z.log2_nonneg.
    replace (a - b + 1) with (Z.succ a - b) by lia.
    rewrite Qpower_minus by discriminate.
    rewrite <- (two_pow_Z b Hb0), <- (two_pow_Z (Z.succ a)) by lia.
    assert (0 < 2 ^ b) as Hp by (apply Z.pow_pos_nonneg; lia).
    apply Qlt_shift_div_l.
    + apply inject_Z_pos. exact Hp.
    + destruct x as [n d]. unfold Qlt. simpl in *.
      remember (2 ^ Z.succ a) as A. remember (2 ^ b) as B. nia.
  - replace (a - b - 1 + 1) with (a - b) by lia.
    apply Qnot_le_lt. intros Hle. apply Qle_bool_iff in Hle. congruence.
Qed.

(** The scaled value lies in [2^52, 2^53): the rounded mantissa has the 53
    bits of the format. *)
Lemma scaled_mantissa x :
  (0 < x)%Q ->
  (inject_Z (2 ^ 52) <= x / 2 ^ (JS.binade x - 52) < inject_Z (2 ^ 53))%Q.
Proof.
  intros Hx.
  pose proof (binade_le x Hx) as Hlo. pose proof (binade_lt x Hx) as Hhi.
  pose proof (two_pow_pos (JS.binade x - 52)) as Hp.
  rewrite (two_pow_Z 52), (two_pow_Z 53) by lia.
  split.
  - apply Qle_shift_div_l; [exact Hp|].
    rewrite <- Qpower_plus by discriminate.
    replace (52 + (JS.binade x - 52)) with (JS.binade x) by lia. exact Hlo.
  - apply Qlt_shift_div_r; [exact Hp|].
    rewrite <- Qpower_plus by discriminate.
    replace (53 + (JS.binade x - 52)) with (JS.binade x + 1) by lia. exact Hhi.
Qed.

Lemma scaled_ge_1 x e :
  (0 < x)%Q -> e <= JS.binade x -> (inject_Z 1 <= x / 2 ^ e)%Q.
Proof.
  intros Hx He. apply Qle_shift_div_l; [apply two_pow_pos|].
  apply Qle_trans with (2 ^ JS.binade x)%Q; [|apply binade_le; exact Hx].
  change (inject_Z 1) with 1%Q. rewrite Qmult_1_l.
  apply Qpower_le_compat_l; [exact He | discriminate].
Qed.

(** Rounding to a double keeps the sign. *)
Lemma round64_pos x : (0 < x)%Q -> (0 < JS.round64 x)%Q.
Proof.
  intros Hx. unfold JS.round64.
  assert ((x ?= 0)%Q = Gt) as Hc by (apply Qgt_alt; exact Hx).
  rewrite Hc. cbv zeta.
  apply Qmult_lt_0_compat; [|apply two_pow_pos].
  assert (1 <= JS.roundHalfEven (x / 2 ^ (JS.binade x - 52))) as H1.
  { apply roundHalfEven_ge. apply scaled_ge_1; [exact Hx | lia]. }
  apply inject_Z_pos. lia.
Qed.

Lemma round64_zero x : (x == 0)%Q -> JS.round64 x = 0%Q.
Proof.
  intros Hx. unfold JS.round64. rewrite (proj1 (Qeq_alt _ _) Hx). reflexivity.
Qed.

Lemma round64_neg x : (x < 0)%Q -> (JS.round64 x < 0)%Q.
Proof.
  intros Hx. unfold JS.round64.
  assert ((x ?= 0)%Q = Lt) as Hc by (apply Qlt_alt; exact Hx).
  rewrite Hc. cbv zeta.
  assert (0 < - x)%Q as Hx' by lra.
  assert (0 < inject_Z (JS.roundHalfEven (- x / 2 ^ (JS.binade (- x) - 52)))
              * 2 ^ (JS.binade (- x) - 52))%Q as Hp.
  { apply Qmult_lt_0_compat; [|apply two_pow_pos].
    assert (1 <= JS.roundHalfEven (- x / 2 ^ (JS.binade (- x) - 52))) as H1.
    { apply roundHalfEven_ge. apply scaled_ge_1; [exact Hx' | lia]. }
    apply inject_Z_pos. lia. }
  lra.
Qed.

Lemma round64_nonneg x : (0 <= x)%Q -> (0 <= JS.round64 x)%Q.
Proof.
  intros Hx. destruct (Qlt_le_dec 0 x) as [Hp|Hz].
  - apply Qlt_le_weak. apply round64_pos. exact Hp.
  - rewrite round64_zero by lra. lra.
Qed.

Lemma round64_nonpos_iff x : (JS.round64 x <= 0)%Q <-> (x <= 0)%Q.
Proof.
  split; intros H.
  - destruct (Qlt_le_dec 0 x) as [Hp|Hz]; [|exact Hz].
    apply round64_pos in Hp. lra.
  - destruct (Qlt_le_dec x 0) as [Hn|Hz].
    + apply Qlt_le_weak. apply round64_neg. exact Hn.
    + rewrite round64_zero by lra. lra.
Qed.

(** Rounding never crosses an integer that is itself a double. *)
Lemma round64_le_int x K :
  0 <= K < 2 ^ 53 -> (x <= inject_Z K)%Q -> (JS.round64 x <= inject_Z K)%Q.
Proof.
  intros [HK0 HK] Hx.
  assert (0 <= inject_Z K)%Q as HKq
    by (apply inject_Z_nonneg; exact HK0).
  destruct (Qlt_le_dec 0 x) as [Hp|Hz].
  2:{ destruct (Qlt_le_dec x 0) as [Hn|Hz'].
      - apply round64_neg in Hn. lra.
      - rewrite round64_zero by lra. exact HKq. }
  unfold JS.round64.
  assert ((x ?= 0)%Q = Gt) as Hc by (apply Qgt_alt; exact Hp).
  rewrite Hc. cbv zeta.
  set (e := JS.binade x - 52).
  destruct (Z_le_gt_dec e 0) as [He|He].
  - assert (inject_Z K == inject_Z (K * 2 ^ (- e)) * 2 ^ e)%Q as HKe.
    { rewrite inject_Z_mult, (two_pow_Z (- e)) by lia.
      rewrite Qpower_opp. field.
      apply Qpower_not_0. discriminate. }
    rewrite HKe. apply Qmult_le_compat_r; [|apply Qlt_le_weak, two_pow_pos].
    rewrite <- Zle_Qle. apply roundHalfEven_le.
    apply Qle_shift_div_r; [apply two_pow_pos|].
    rewrite <- HKe. exact Hx.
  - exfalso.
    assert (2 ^ 53 <= x)%Q as Hbig.
    { apply Qle_trans with (2 ^ JS.binade x)%Q; [|apply binade_le; exact Hp].
      apply Qpower_le_compat_l; [unfold e in He; lia | discriminate]. }
    assert (inject_Z K < 2 ^ 53)%Q as Hsmall.
    { rewrite <- (two_pow_Z 53) by lia. rewrite <- Zlt_Qlt. exact HK. }
    lra.
Qed.

Lemma fdiv_range (c r : Z) :
  0 <= c <= r -> 0 < r ->
  (0 <= JS.fdiv (inject_Z c) (inject_Z r) <= 1)%Q.
Proof.
  intros [Hc Hcr] Hr. unfold JS.fdiv.
  assert (0 < inject_Z r)%Q as Hr'
    by (apply inject_Z_pos; exact Hr).
  assert (0 <= inject_Z c)%Q as Hc'
    by (apply inject_Z_nonneg; exact Hc).
  assert (inject_Z c <= inject_Z r)%Q as Hcr' by (rewrite <- Zle_Qle; exact Hcr).
  split.
  - apply round64_nonneg. apply Qle_shift_div_l; [exact Hr'|]. lra.
  - apply (round64_le_int _ 1); [lia|].
    apply Qle_shift_div_r; [exact Hr'|]. change (inject_Z 1) with 1%Q. lra.
Qed.

Lemma fmul_range (x : Q) (t : Z) :
  (0 <= x <= 1)%Q -> 0 <= t < 2 ^ 53 ->
  (0 <= JS.fmul x (inject_Z t) <= inject_Z t)%Q.
Proof.
  intros [H0 H1] Ht. unfold JS.fmul.
  assert (0 <= inject_Z t)%Q as Ht'
    by (apply inject_Z_nonneg; lia).
  split.
  - apply round64_nonneg. apply Qmult_le_0_compat; assumption.
  - apply (round64_le_int _ t Ht).
    setoid_replace (inject_Z t) with (1 * inject_Z t)%Q at 2 by ring.
    apply Qmult_le_compat_r; assumption.
Qed.

End Binary64Facts.

(** ** Doubles are ordered like the numbers they round; integers in doubles *)

Section Binary64Order.

Lemma round64_ge_int x K :
  0 <= K < 2 ^ 53 -> (inject_Z K <= x)%Q -> (inject_Z K <= JS.round64 x)%Q.
Proof.
  intros [HK0 HK] Hx.
  pose proof (inject_Z_nonneg K HK0) as HKq.
  destruct (Z.eq_dec K 0) as [->|HKne].
  { apply round64_nonneg. exact Hx. }
  assert (0 < inject_Z K)%Q as HKpos by (apply inject_Z_pos; lia).
  assert (0 < x)%Q as Hp by lra.
  unfold JS.round64.
  assert ((x ?= 0)%Q = Gt) as Hc by (apply Qgt_alt; exact Hp).
  rewrite Hc. cbv zeta.
  set (e := JS.binade x - 52).
  destruct (Z_le_gt_dec e 0) as [He|He].
  - assert (inject_Z K == inject_Z (K * 2 ^ (- e)) * 2 ^ e)%Q as HKe.
    { rewrite inject_Z_mult, (two_pow_Z (- e)) by lia.
      rewrite Qpower_opp. field.
      apply Qpower_not_0. discriminate. }
    rewrite HKe at 1.
    apply Qmult_le_compat_r; [|apply Qlt_le_weak, two_pow_pos].
    rewrite <- Zle_Qle. apply roundHalfEven_ge.
    apply Qle_shift_div_l; [apply two_pow_pos|].
    rewrite <- HKe. exact Hx.
  - destruct (scaled_mantissa x Hp) as [Hlo _]. fold e in Hlo.
    apply roundHalfEven_ge in Hlo.
    assert (inject_Z (2 ^ 52) <= inject_Z (JS.roundHalfEven (x / 2 ^ e)))%Q as Hm
      by (rewrite <- Zle_Qle; exact Hlo).
    assert (2 ^ 1 <= 2 ^ e)%Q as Hpow
      by (apply Qpower_le_compat_l; [lia | discriminate]).
    assert (inject_Z K <= inject_Z (2 ^ 52) * 2 ^ 1)%Q as Hsmall.
    { apply Qle_trans with (inject_Z (2 ^ 53)).
      - rewrite <- Zle_Qle. lia.
      - apply Qle_lteq. right. reflexivity. }
    apply Qle_trans with (inject_Z (2 ^ 52) * 2 ^ 1)%Q; [exact Hsmall|].
    apply Qle_trans with (inject_Z (2 ^ 52) * 2 ^ e)%Q.
    + apply Qmult_le_l; [reflexivity | exact Hpow].
    + apply Qmult_le_compat_r; [exact Hm | apply Qlt_le_weak, two_pow_pos].
Qed.

(** A value equal to an integer below 2^53 is its own double. *)
Lemma round64_exact x K :
  0 <= K < 2 ^ 53 -> (x == inject_Z K)%Q -> (JS.round64 x == inject_Z K)%Q.
Proof.
  intros HK Hx. apply Qle_antisym.
  - apply round64_le_int; [exact HK|]. rewrite Hx. apply Qle_refl.
  - apply round64_ge_int; [exact HK|]. rewrite Hx. apply Qle_refl.
Qed.

Ltac cmp_fact H :=
  match type of H with
  | (_ ?= _)%Q = Eq => apply (proj2 (Qeq_alt _ _)) in H
  | (_ ?= _)%Q = Lt => apply (proj2 (Qlt_alt _ _)) in H
  | (_ ?= _)%Q = Gt => apply (proj2 (Qgt_alt _ _)) in H
  end.

Lemma two_pow_le a b : a <= b -> (2 ^ a <= 2 ^ b)%Q.
Proof. intros H. apply Qpower_le_compat_l; [exact H | discriminate]. Qed.

Lemma two_pow_lt_inv a b : (2 ^ a < 2 ^ b)%Q -> a < b.
Proof.
  intros H. destruct (Z_lt_le_dec a b) as [Hlt|Hle]; [exact Hlt|].
  apply two_pow_le in Hle. apply Qlt_not_le in H. contradiction.
Qed.

Lemma two_pow_plus a b : (2 ^ (a + b) == 2 ^ a * 2 ^ b)%Q.
Proof. apply Qpower_plus. discriminate. Qed.

Lemma two_pow_succ_lt a : (2 ^ a < 2 ^ (a + 1))%Q.
Proof.
  rewrite two_pow_plus. pose proof (two_pow_pos a) as Hp.
  change (2 ^ 1)%Q with 2%Q. lra.
Qed.

Lemma two_pow_neq_0 a : ~ (2 ^ a == 0)%Q.
Proof. intros H. pose proof (two_pow_pos a) as Hp. rewrite H in Hp. discriminate Hp. Qed.

(** The bracket of [binade] determines it. *)
Lemma binade_unique x b :
  (2 ^ b <= x)%Q -> (x < 2 ^ (b + 1))%Q -> JS.binade x = b.
Proof.
  intros Hlo Hhi.
  assert (0 < x)%Q as Hx.
  { apply Qlt_le_trans with (2 ^ b)%Q; [apply two_pow_pos | exact Hlo]. }
  pose proof (binade_le x Hx) as Hl. pose proof (binade_lt x Hx) as Hh.
  assert (JS.binade x < b + 1) as H1.
  { apply two_pow_lt_inv. apply Qle_lt_trans with x; assumption. }
  assert (b < JS.binade x + 1) as H2.
  { apply two_pow_lt_inv. apply Qle_lt_trans with x; assumption. }
  lia.
Qed.

Lemma binade_comp x y : (0 < x)%Q -> (x == y)%Q -> JS.binade y = JS.binade x.
Proof.
  intros Hx He. apply binade_unique.
  - rewrite <- He. apply binade_le. exact Hx.
  - rewrite <- He. apply binade_lt. exact Hx.
Qed.

Lemma binade_mono x y : (0 < x)%Q -> (x <= y)%Q -> JS.binade x <= JS.binade y.
Proof.
  intros Hx Hxy.
  assert (0 < y)%Q as Hy by (apply Qlt_le_trans with x; assumption).
  pose proof (binade_le x Hx) as Hl. pose proof (binade_lt y Hy) as Hh.
  assert (JS.binade x < JS.binade y + 1) as H1.
  { apply two_pow_lt_inv. apply Qle_lt_trans with x; [exact Hl|].
    apply Qle_lt_trans with y; assumption. }
  lia.
Qed.

Lemma roundHalfEven_comp x y :
  (x == y)%Q -> JS.roundHalfEven x = JS.roundHalfEven y.
Proof.
  intros H. unfold JS.roundHalfEven. rewrite (Qfloor_comp _ _ H).
  assert ((x - inject_Z (Qfloor y) ?= 1 # 2)%Q
          = (y - inject_Z (Qfloor y) ?= 1 # 2)%Q) as E.
  { apply Qcompare_comp; [rewrite H; reflexivity | reflexivity]. }
  rewrite E. reflexivity.
Qed.

Lemma roundHalfEven_Z m : JS.roundHalfEven (inject_Z m) = m.
Proof.
  unfold JS.roundHalfEven. rewrite Qfloor_Z.
  assert (inject_Z m - inject_Z m < 1 # 2)%Q as H by lra.
  rewrite (proj1 (Qlt_alt _ _) H). reflexivity.
Qed.

Lemma roundHalfEven_mono x y :
  (x <= y)%Q -> JS.roundHalfEven x <= JS.roundHalfEven y.
Proof.
  intros H. pose proof (Qfloor_resp_le _ _ H) as Hf.
  destruct (Z.eq_dec (Qfloor x) (Qfloor y)) as [He|Hne].
  - unfold JS.roundHalfEven. rewrite He.
    destruct (x - inject_Z (Qfloor y) ?= 1 # 2)%Q eqn:Hx;
      destruct (y - inject_Z (Qfloor y) ?= 1 # 2)%Q eqn:Hy;
      cmp_fact Hx; cmp_fact Hy;
      try (destruct (Z.even (Qfloor y)));
      first [lia | exfalso; lra].
  - pose proof (roundHalfEven_floor x). pose proof (roundHalfEven_floor y). lia.
Qed.

Lemma round64_unfold x :
  (0 < x)%Q ->
  JS.round64 x
  = (inject_Z (JS.roundHalfEven (x / 2 ^ (JS.binade x - 52)))
     * 2 ^ (JS.binade x - 52))%Q.
Proof.
  intros Hx. unfold JS.round64.
  rewrite (proj1 (Qgt_alt _ _) Hx). reflexivity.
Qed.

Lemma round64_unfold_neg x :
  (x < 0)%Q -> JS.round64 x = (- JS.round64 (- x))%Q.
Proof.
  intros Hx. unfold JS.round64 at 1.
  rewrite (proj1 (Qlt_alt _ _) Hx).
  rewrite (round64_unfold (- x)) by lra. reflexivity.
Qed.

(** The mantissa of a positive number, after rounding. *)
Lemma mantissa_range x :
  (0 < x)%Q ->
  2 ^ 52 <= JS.roundHalfEven (x / 2 ^ (JS.binade x - 52)) <= 2 ^ 53.
Proof.
  intros Hx. destruct (scaled_mantissa x Hx) as [Hlo Hhi]. split.
  - apply roundHalfEven_ge. exact Hlo.
  - apply roundHalfEven_le. apply Qlt_le_weak. exact Hhi.
Qed.

Lemma round64_comp_pos x y :
  (0 < x)%Q -> (x == y)%Q -> (JS.round64 x == JS.round64 y)%Q.
Proof.
  intros Hx He.
  assert (0 < y)%Q as Hy by (rewrite <- He; exact Hx).
  rewrite (round64_unfold x Hx), (round64_unfold y Hy).
  rewrite (binade_comp x y Hx He).
  rewrite (roundHalfEven_comp (x / 2 ^ (JS.binade x - 52))
                              (y / 2 ^ (JS.binade x - 52))).
  - reflexivity.
  - apply Qdiv_comp; [exact He | reflexivity].
Qed.

Lemma round64_comp x y : (x == y)%Q -> (JS.round64 x == JS.round64 y)%Q.
Proof.
  intros He. destruct (Q_dec 0 x) as [[Hp|Hn]|Hz].
  - apply round64_comp_pos; assumption.
  - assert (y < 0)%Q as Hy by (rewrite <- He; exact Hn).
    rewrite (round64_unfold_neg x Hn), (round64_unfold_neg y Hy).
    apply Qopp_comp. apply round64_comp_pos; [lra | rewrite He; reflexivity].
  - rewrite (round64_zero x) by (symmetry; exact Hz).
    rewrite (round64_zero y) by (rewrite <- He; symmetry; exact Hz).
    reflexivity.
Qed.

(** Rounding to a double is monotone. *)
Lemma round64_mono_pos x y :
  (0 < x)%Q -> (x <= y)%Q -> (JS.round64 x <= JS.round64 y)%Q.
Proof.
  intros Hx Hxy.
  assert (0 < y)%Q as Hy by (apply Qlt_le_trans with x; assumption).
  rewrite (round64_unfold x Hx), (round64_unfold y Hy).
  pose proof (binade_mono x y Hx Hxy) as Hb.
  destruct (Z.eq_dec (JS.binade x) (JS.binade y)) as [He|Hne].
  - rewrite He. apply Qmult_le_compat_r; [|apply Qlt_le_weak, two_pow_pos].
    rewrite <- Zle_Qle. apply roundHalfEven_mono.
    apply Qmult_le_compat_r; [exact Hxy|].
    apply Qlt_le_weak, Qinv_lt_0_compat, two_pow_pos.
  - destruct (mantissa_range x Hx) as [_ Hmx].
    destruct (mantissa_range y Hy) as [Hmy _].
    apply Qle_trans with (inject_Z (2 ^ 53) * 2 ^ (JS.binade x - 52))%Q.
    { apply Qmult_le_compat_r; [|apply Qlt_le_weak, two_pow_pos].
      rewrite <- Zle_Qle. exact Hmx. }
    apply Qle_trans with (inject_Z (2 ^ 52) * 2 ^ (JS.binade y - 52))%Q.
    2:{ apply Qmult_le_compat_r; [|apply Qlt_le_weak, two_pow_pos].
        rewrite <- Zle_Qle. exact Hmy. }
    rewrite (two_pow_Z 53), (two_pow_Z 52) by lia.
    rewrite <- !two_pow_plus. apply two_pow_le. lia.
Qed.

Lemma round64_mono x y :
  (0 <= x)%Q -> (x <= y)%Q -> (JS.round64 x <= JS.round64 y)%Q.
Proof.
  intros Hx Hxy. destruct (Qlt_le_dec 0 x) as [Hp|Hz].
  - apply round64_mono_pos; assumption.
  - rewrite (round64_zero x) by lra. apply round64_nonneg. lra.
Qed.

(** A double is its own rounding. *)
Lemma round64_idem x :
  (0 <= x)%Q -> (JS.round64 (JS.round64 x) == JS.round64 x)%Q.
Proof.
  intros Hx0. destruct (Qlt_le_dec 0 x) as [Hx|Hz].
  2:{ rewrite (round64_zero x) by lra. reflexivity. }
  pose proof (round64_pos x Hx) as Hy.
  destruct (mantissa_range x Hx) as [Hlo Hhi].
  rewrite (round64_unfold x Hx) in *.
  set (e := JS.binade x - 52) in *.
  set (m := JS.roundHalfEven (x / 2 ^ e)) in *.
  pose proof (two_pow_pos e) as Hpe.
  destruct (Z.eq_dec m (2 ^ 53)) as [Hm|Hm].
  - (* the mantissa rounded up to the next binade *)
    assert (inject_Z m * 2 ^ e == 2 ^ (e + 53))%Q as Hval.
    { rewrite Hm, (two_pow_Z 53) by lia. rewrite <- two_pow_plus.
      replace (53 + e) with (e + 53) by lia. reflexivity. }
    assert (JS.binade (inject_Z m * 2 ^ e) = e + 53) as Hb.
    { apply binade_unique.
      - rewrite Hval. apply Qle_refl.
      - rewrite Hval. apply two_pow_succ_lt. }
    rewrite (round64_unfold _ Hy). rewrite Hb.
    replace (e + 53 - 52) with (e + 1) by lia.
    rewrite (roundHalfEven_comp _ (inject_Z (2 ^ 52))).
    + rewrite roundHalfEven_Z. rewrite Hval.
      rewrite (two_pow_Z 52) by lia. rewrite <- two_pow_plus.
      replace (52 + (e + 1)) with (e + 53) by lia. reflexivity.
    + rewrite Hval. rewrite (two_pow_Z 52) by lia.
      assert (2 ^ (e + 53) == 2 ^ 52 * 2 ^ (e + 1))%Q as Hs.
      { rewrite <- two_pow_plus.
        replace (52 + (e + 1)) with (e + 53) by lia. reflexivity. }
      rewrite Hs. field. apply two_pow_neq_0.
  - assert (JS.binade (inject_Z m * 2 ^ e) = e + 52) as Hb.
    { apply binade_unique.
      - apply Qle_trans with (inject_Z (2 ^ 52) * 2 ^ e)%Q.
        + rewrite (two_pow_Z 52) by lia. rewrite <- two_pow_plus.
          replace (52 + e) with (e + 52) by lia. apply Qle_refl.
        + apply Qmult_le_compat_r; [|apply Qlt_le_weak; exact Hpe].
          rewrite <- Zle_Qle. exact Hlo.
      - apply Qlt_le_trans with (inject_Z (2 ^ 53) * 2 ^ e)%Q.
        + apply Qmult_lt_compat_r; [exact Hpe|].
          rewrite <- Zlt_Qlt. lia.
        + rewrite (two_pow_Z 53) by lia. rewrite <- two_pow_plus.
          replace (53 + e) with (e + 52 + 1) by lia. apply Qle_refl. }
    rewrite (round64_unfold _ Hy). rewrite Hb.
    replace (e + 52 - 52) with e by lia.
    rewrite (roundHalfEven_comp _ (inject_Z m)).
    + rewrite roundHalfEven_Z. reflexivity.
    + field. apply two_pow_neq_0.
Qed.

End Binary64Order.

Section IntegerDoubles.

Lemma roundInt_value_pos n :
  0 < n -> (JS.round64 (inject_Z n) == inject_Z (JS.roundInt n))%Q.
Proof.
  intros Hn. unfold JS.roundInt.
  pose proof (inject_Z_pos n Hn) as Hx.
  destruct (Z_le_gt_dec 0 (JS.binade (inject_Z n) - 52)) as [He|He].
  - rewrite (round64_unfold _ Hx).
    set (e := JS.binade (inject_Z n) - 52) in *.
    set (m := JS.roundHalfEven (inject_Z n / 2 ^ e)).
    assert (inject_Z m * 2 ^ e == inject_Z (m * 2 ^ e))%Q as Hv.
    { rewrite inject_Z_mult, (two_pow_Z e He). reflexivity. }
    rewrite (Qfloor_comp _ _ Hv), Qfloor_Z. exact Hv.
  - assert (n < 2 ^ 53) as Hsmall.
    { rewrite Zlt_Qlt. rewrite (two_pow_Z 53) by lia.
      apply Qlt_le_trans with (2 ^ (JS.binade (inject_Z n) + 1))%Q.
      - apply binade_lt. exact Hx.
      - apply two_pow_le. lia. }
    assert (JS.round64 (inject_Z n) == inject_Z n)%Q as Hv.
    { apply round64_exact; [lia | reflexivity]. }
    rewrite (Qfloor_comp _ _ Hv), Qfloor_Z. exact Hv.
Qed.

(** The double nearest to an integer holds an integer: [roundInt] loses
    nothing. *)
Lemma roundInt_value n :
  (JS.round64 (inject_Z n) == inject_Z (JS.roundInt n))%Q.
Proof.
  destruct (Z.lt_trichotomy n 0) as [Hn|[->|Hn]].
  - assert (inject_Z n < 0)%Q as Hx.
    { change 0%Q with (inject_Z 0). rewrite <- Zlt_Qlt. exact Hn. }
    assert (JS.round64 (inject_Z n) == inject_Z (- JS.roundInt (- n)))%Q as Hv.
    { rewrite (round64_unfold_neg _ Hx), inject_Z_opp.
      apply Qopp_comp. rewrite <- (roundInt_value_pos (- n)) by lia.
      apply round64_comp. rewrite inject_Z_opp. reflexivity. }
    unfold JS.roundInt at 1. rewrite (Qfloor_comp _ _ Hv), Qfloor_Z. exact Hv.
  - reflexivity.
  - apply roundInt_value_pos. exact Hn.
Qed.

Lemma roundInt_exact n : 0 <= n < 2 ^ 53 -> JS.roundInt n = n.
Proof.
  intros Hn. unfold JS.roundInt.
  rewrite (Qfloor_comp _ (inject_Z n)); [apply Qfloor_Z|].
  apply round64_exact; [exact Hn | reflexivity].
Qed.

Lemma roundInt_nonneg n : 0 <= n -> 0 <= JS.roundInt n.
Proof.
  intros Hn. rewrite Zle_Qle, <- roundInt_value.
  apply round64_nonneg. apply inject_Z_nonneg. exact Hn.
Qed.

Lemma roundInt_mono n m : 0 <= n <= m -> JS.roundInt n <= JS.roundInt m.
Proof.
  intros [Hn Hm]. rewrite Zle_Qle, <- !roundInt_value.
  apply round64_mono; [apply inject_Z_nonneg; exact Hn|].
  rewrite <- Zle_Qle. exact Hm.
Qed.

(** A sum or difference of the page is a double: rounding it again gives
    the same integer. *)
Lemma roundInt_idem n : 0 <= n -> JS.roundInt (JS.roundInt n) = JS.roundInt n.
Proof.
  intros Hn. apply inject_Z_injective.
  rewrite <- (roundInt_value (JS.roundInt n)).
  rewrite <- (round64_comp _ _ (roundInt_value n)).
  rewrite <- (roundInt_value n).
  apply round64_idem. apply inject_Z_nonneg. exact Hn.
Qed.

Lemma roundInt_below n : 0 <= n -> JS.roundInt n < 2 ^ 53 -> n < 2 ^ 53.
Proof.
  intros Hn Hr. destruct (Z_lt_le_dec n (2 ^ 53)) as [Hlt|Hge]; [exact Hlt|].
  pose proof (roundInt_mono (2 ^ 53) n ltac:(lia)) as Hm.
  change (JS.roundInt (2 ^ 53)) with (2 ^ 53) in Hm. lia.
Qed.

Lemma addInt_exact a b :
  0 <= a -> 0 <= b -> a + b < 2 ^ 53 -> JS.addInt a b = a + b.
Proof. intros Ha Hb H. apply roundInt_exact. lia. Qed.

Lemma addInt_below a b :
  0 <= a -> 0 <= b -> JS.addInt a b < 2 ^ 53 ->
  a + b < 2 ^ 53 /\ JS.addInt a b = a + b.
Proof.
  intros Ha Hb H.
  assert (a + b < 2 ^ 53) as Hs by (apply roundInt_below; [lia | exact H]).
  split; [exact Hs | apply addInt_exact; assumption].
Qed.

Lemma addInt_nonneg a b : 0 <= a -> 0 <= b -> 0 <= JS.addInt a b.
Proof. intros Ha Hb. apply roundInt_nonneg. lia. Qed.

Lemma addInt_idem a b :
  0 <= a -> 0 <= b -> JS.roundInt (JS.addInt a b) = JS.addInt a b.
Proof. intros Ha Hb. apply roundInt_idem. lia. Qed.


Lemma addInt_ge_l a b :
  0 <= a -> 0 <= b -> JS.roundInt a = a -> a <= JS.addInt a b.
Proof.
  intros Ha Hb Hd. rewrite <- Hd at 1. apply roundInt_mono. lia.
Qed.

End IntegerDoubles.


(** ** Strings *)

Section StringFacts.
Local Open Scope string_scope.

Lemma append_nil_r (s : string) : s ++ "" = s.
Proof. induction s as [|c s IH]; simpl; congruence. Qed.

Lemma append_assoc (a b c : string) : (a ++ b) ++ c = a ++ (b ++ c).
Proof. induction a as [|x a IH]; simpl; congruence. Qed.

Lemma length_append (a b : string) :
  String.length (a ++ b) = (String.length a + String.length b)%nat.
Proof. induction a as [|x a IH]; simpl; congruence. Qed.

Lemma prefix_iff (p s : string) :
  String.prefix p s = true <-> exists rest, s = p ++ rest.
Proof.
  revert s; induction p as [|c p IH]; intros s; simpl.
  - split; [intros _; exists s; reflexivity | destruct s; reflexivity].
  - destruct s as [|d s].
    + split; [discriminate | intros [rest H]; discriminate].
    + simpl. destruct (ascii_dec c d) as [Heq|Hne].
      * rewrite (IH s). split; intros [rest H]; exists rest; congruence.
      * split; [discriminate | intros [rest H]; congruence].
Qed.

Lemma includes_unfold (s marker : string) :
  JS.includes s marker =
  if String.prefix marker s then true
  else match s with
       | EmptyString => false
       | String _ s' => JS.includes s' marker
       end.
Proof. destruct s; reflexivity. Qed.

(** [includes] answers [true] exactly when the marker occurs. *)
Lemma includes_iff (s marker : string) :
  JS.includes s marker = true <-> occursIn marker s.
Proof.
  unfold occursIn. induction s as [|c s IH]; rewrite includes_unfold.
  - destruct (String.prefix marker "") eqn:Hp.
    + apply prefix_iff in Hp as [rest Hr].
      split; [intros _; exists "", rest; exact Hr | reflexivity].
    + split; [discriminate|].
      intros ([|x before] & after & H); [|discriminate].
      assert (String.prefix marker "" = true) as Hp'
        by (apply prefix_iff; exists after; exact H).
      congruence.
  - destruct (String.prefix marker (String c s)) eqn:Hp.
    + apply prefix_iff in Hp as [rest Hr].
      split; [intros _; exists "", rest; exact Hr | reflexivity].
    + rewrite IH. split.
      * intros (before & after & H). exists (String c before), after.
        simpl; congruence.
      * intros ([|x before] & after & H).
        -- assert (String.prefix marker (String c s) = true) as Hp'
             by (apply prefix_iff; exists after; exact H).
           congruence.
        -- exists before, after. simpl in H. congruence.
Qed.

Lemma substring_prefix (a b : string) :
  substring 0 (String.length a) (a ++ b) = a.
Proof.
  induction a as [|c a IH]; simpl.
  - destruct b; reflexivity.
  - congruence.
Qed.

Lemma substring_all (b : string) : substring 0 (String.length b) b = b.
Proof. induction b as [|c b IH]; simpl; congruence. Qed.

Lemma substring_suffix (a b : string) :
  substring (String.length a) (String.length b) (a ++ b) = b.
Proof.
  induction a as [|c a IH]; simpl.
  - apply substring_all.
  - exact IH.
Qed.

(** *** Trimming *)

Lemma trimEnd_empty_iff (s : string) :
  JS.trimEnd s = "" <-> allWhiteSpace s = true.
Proof.
  induction s as [|c s IH]; simpl.
  - split; reflexivity.
  - destruct (JS.trimEnd s) eqn:Ht.
    + destruct (JS.isWhiteSpace c); simpl.
      * tauto.
      * split; discriminate.
    + split; [discriminate|].
      intros H. apply andb_true_iff in H as [_ H].
      apply IH in H. discriminate.
Qed.

Lemma trimStart_allWhiteSpace (s : string) :
  allWhiteSpace (JS.trimStart s) = allWhiteSpace s.
Proof.
  induction s as [|c s IH]; simpl; [reflexivity|].
  destruct (JS.isWhiteSpace c) eqn:Hc; simpl; [exact IH|].
  rewrite Hc. reflexivity.
Qed.

(** A string is blank after trimming exactly when all of it is white
    space. *)
Lemma trim_truthy (s : string) :
  JS.truthy (JS.trim s) = negb (allWhiteSpace s).
Proof.
  unfold JS.truthy, JS.trim.
  rewrite <- trimStart_allWhiteSpace.
  destruct (allWhiteSpace (JS.trimStart s)) eqn:Hw.
  - apply trimEnd_empty_iff in Hw. rewrite Hw. reflexivity.
  - destruct (String.eqb_spec (JS.trimEnd (JS.trimStart s)) "") as [He|Hne];
      [|reflexivity].
    apply trimEnd_empty_iff in He. congruence.
Qed.

Lemma truthy_iff (s : string) : JS.truthy s = true <-> s <> "".
Proof.
  unfold JS.truthy. destruct (String.eqb_spec s ""); simpl; split;
    congruence.
Qed.

End StringFacts.

(** ** Decimal digits, [toFixed(1)] and [Number] *)

Section DigitFacts.
Local Open Scope N_scope.

Lemma N_of_digitChar d : d < 10 -> N_of_ascii (JS.digitChar d) = 48 + d.
Proof. intros H. unfold JS.digitChar. apply N_ascii_embedding. lia. Qed.

Lemma isDigit_digitChar d : d < 10 -> isDigit (JS.digitChar d) = true.
Proof.
  intros H. unfold isDigit. rewrite (N_of_digitChar d H).
  apply andb_true_iff. split; apply N.leb_le; lia.
Qed.

Lemma digitVal_digitChar d : d < 10 -> JS.digitVal (JS.digitChar d) = Some d.
Proof.
  intros H. unfold JS.digitVal. rewrite (N_of_digitChar d H).
  replace ((48 <=? 48 + d) && (48 + d <=? 57)) with true.
  - f_equal. lia.
  - symmetry. apply andb_true_iff. split; apply N.leb_le; lia.
Qed.

Lemma digitsAux_S fuel n acc :
  JS.digitsAux (S fuel) n acc =
  if n / 10 =? 0 then String (JS.digitChar (n mod 10)) acc
  else JS.digitsAux fuel (n / 10) (String (JS.digitChar (n mod 10)) acc).
Proof. reflexivity. Qed.

Lemma digitsAux_acc fuel : forall n acc,
  JS.digitsAux fuel n acc = (JS.digitsAux fuel n "" ++ acc)%string.
Proof.
  induction fuel as [|fuel IH]; intros n acc.
  - reflexivity.
  - rewrite !digitsAux_S. destruct (n / 10 =? 0).
    + reflexivity.
    + rewrite IH. rewrite (IH _ (String _ "")).
      rewrite append_assoc. reflexivity.
Qed.

Lemma tenth_bound n k : n < 2 ^ N.succ k -> n / 10 < 2 ^ k.
Proof.
  intros H. rewrite N.pow_succ_r' in H.
  apply N.Div0.div_lt_upper_bound.
  remember (2 ^ k) as p eqn:Hp. clear Hp. lia.
Qed.

(** Once there is enough of it, the amount of fuel does not matter. *)
Lemma digitsAux_fuel f1 : forall f2 n acc,
  n < 2 ^ N.of_nat f1 -> n < 2 ^ N.of_nat f2 ->
  f1 <> O -> f2 <> O ->
  JS.digitsAux f1 n acc = JS.digitsAux f2 n acc.
Proof.
  induction f1 as [|f1 IH]; intros f2 n acc H1 H2 N1 N2; [congruence|].
  destruct f2 as [|f2]; [congruence|].
  rewrite !digitsAux_S. destruct (N.eqb_spec (n / 10) 0) as [|Hq].
  - reflexivity.
  - rewrite Nat2N.inj_succ in H1, H2.
    apply tenth_bound in H1. apply tenth_bound in H2.
    apply IH; try assumption.
    + intros ->. change (2 ^ N.of_nat 0) with 1 in H1.
      apply N.lt_1_r in H1. contradiction.
    + intros ->. change (2 ^ N.of_nat 0) with 1 in H2.
      apply N.lt_1_r in H2. contradiction.
Qed.

Lemma log2_fuel n : n < 2 ^ N.of_nat (S (N.to_nat (N.log2 n))).
Proof.
  rewrite Nat2N.inj_succ, N2Nat.id.
  destruct (N.eq_dec n 0) as [->|Hn].
  - reflexivity.
  - apply N.log2_spec. lia.
Qed.

Lemma decimalDigits_small n :
  n < 10 -> JS.decimalDigits n = String (JS.digitChar n) "".
Proof.
  intros H. unfold JS.decimalDigits. rewrite digitsAux_S.
  rewrite (N.div_small n 10 H), (N.mod_small n 10 H). reflexivity.
Qed.

(** The digits of a number from 10 on are those of its tenth followed by
    its last digit. *)
Lemma decimalDigits_step n :
  10 <= n ->
  JS.decimalDigits n =
  (JS.decimalDigits (n / 10) ++ String (JS.digitChar (n mod 10)) "")%string.
Proof.
  intros H. unfold JS.decimalDigits at 1. rewrite digitsAux_S.
  assert (n / 10 <> 0) as Hq.
  { intros Hz. apply N.div_small_iff in Hz; lia. }
  destruct (N.eqb_spec (n / 10) 0) as [|_]; [contradiction|].
  rewrite digitsAux_acc. f_equal.
  unfold JS.decimalDigits. apply digitsAux_fuel.
  - rewrite N2Nat.id. apply tenth_bound.
    apply N.log2_spec. lia.
  - apply log2_fuel.
  - assert (N.log2 8 <= N.log2 n) as Hl by (apply N.log2_le_mono; lia).
    change (N.log2 8) with 3 in Hl. lia.
  - discriminate.
Qed.

(** Induction along the digits of a number. *)
Lemma decimal_induction (P : N -> Prop) :
  (forall n, n < 10 -> P n) ->
  (forall n, 10 <= n -> P (n / 10) -> P n) ->
  forall n, P n.
Proof.
  intros Hsmall Hstep n.
  induction n as [n IH] using (well_founded_induction N.lt_wf_0).
  destruct (N.lt_ge_cases n 10) as [Hlt|Hge].
  - apply Hsmall; exact Hlt.
  - apply Hstep; [exact Hge|]. apply IH.
    apply N.Div0.div_lt_upper_bound. lia.
Qed.

Lemma allDigits_app (a b : string) :
  allDigits (a ++ b) = allDigits a && allDigits b.
Proof.
  induction a as [|c a IH]; simpl; [reflexivity|].
  rewrite IH. apply andb_assoc.
Qed.

Lemma allDigits_decimalDigits n : allDigits (JS.decimalDigits n) = true.
Proof.
  induction n as [n H|n H IH] using decimal_induction.
  - rewrite decimalDigits_small by exact H. simpl.
    rewrite isDigit_digitChar by exact H. reflexivity.
  - rewrite decimalDigits_step by exact H.
    rewrite allDigits_app, IH. simpl.
    rewrite isDigit_digitChar; [reflexivity|].
    apply N.mod_lt. discriminate.
Qed.

Lemma decimalDigits_nonempty n : JS.decimalDigits n <> EmptyString.
Proof.
  destruct (N.lt_ge_cases n 10) as [Hlt|Hge].
  - rewrite decimalDigits_small by exact Hlt. discriminate.
  - rewrite decimalDigits_step by exact Hge.
    destruct (JS.decimalDigits (n / 10)); discriminate.
Qed.

Lemma digitsValue_app (s t : string) : forall a,
  JS.digitsValue (s ++ t) a =
  match JS.digitsValue s a with
  | Some v => JS.digitsValue t v
  | None => None
  end.
Proof.
  induction s as [|c s IH]; intros a; simpl; [reflexivity|].
  destruct (JS.digitVal c); [apply IH | reflexivity].
Qed.

(** Reading the digits of [n] gives [n] back. *)
Lemma digitsValue_decimalDigits n :
  JS.digitsValue (JS.decimalDigits n) 0 = Some n.
Proof.
  induction n as [n H|n H IH] using decimal_induction.
  - rewrite decimalDigits_small by exact H. simpl.
    rewrite digitVal_digitChar by exact H. f_equal.
  - rewrite decimalDigits_step by exact H.
    rewrite digitsValue_app, IH. simpl.
    rewrite digitVal_digitChar by (apply N.mod_lt; discriminate).
    f_equal. rewrite (N.div_mod n 10) at 3 by discriminate. reflexivity.
Qed.

Lemma isDigit_not_dot c : isDigit c = true -> (c =? ".")%char = false.
Proof.
  intros H. apply Ascii.eqb_neq. intros ->. discriminate H.
Qed.

Lemma splitDot_digits (a rest : string) :
  allDigits a = true ->
  JS.splitDot (a ++ String "." rest) = (a, Some rest).
Proof.
  induction a as [|c a IH]; simpl; intros H; [reflexivity|].
  apply andb_true_iff in H as [Hc Ha].
  rewrite (isDigit_not_dot c Hc), (IH Ha). reflexivity.
Qed.

End DigitFacts.

Section ToFixedFacts.
Local Open Scope string_scope.

Lemma toFixedAbs1_unfold (x : Q) :
  JS.toFixedAbs 1 x =
  let m := JS.decimalDigits (tenths x) in
  let k := String.length m in
  let m' := if (k <=? 1)%nat then JS.zeros (1 + 1 - k) ++ m else m in
  let k' := if (k <=? 1)%nat then (1 + 1)%nat else k in
  substring 0 (k' - 1) m' ++ "." ++ substring (k' - 1) 1 m'.
Proof. reflexivity. Qed.

(** With one fraction digit, padding and splitting come to: the digits of
    the whole part, a dot, the last digit. *)
Lemma toFixedAbs1_shape (x : Q) :
  JS.toFixedAbs 1 x =
  JS.decimalDigits (tenths x / 10) ++ "."
  ++ String (JS.digitChar (tenths x mod 10)) "".
Proof.
  rewrite toFixedAbs1_unfold. cbv zeta.
  set (n := tenths x).
  destruct (N.lt_ge_cases n 10) as [Hlt|Hge].
  - rewrite (decimalDigits_small n Hlt).
    rewrite (N.div_small n 10 Hlt), (N.mod_small n 10 Hlt).
    reflexivity.
  - rewrite (decimalDigits_step n Hge).
    set (whole := JS.decimalDigits (n / 10)).
    set (d := JS.digitChar (n mod 10)).
    assert (String.length whole <> O) as Hlen.
    { pose proof (decimalDigits_nonempty (n / 10)) as Hne.
      fold whole in Hne. destruct whole; [congruence | discriminate]. }
    rewrite length_append. simpl (String.length (String d "")).
    destruct (Nat.leb_spec (String.length whole + 1) 1) as [Hle|_]; [lia|].
    replace (String.length whole + 1 - 1)%nat with (String.length whole) by lia.
    rewrite substring_prefix.
    pose proof (substring_suffix whole (String d "")) as Hs.
    change (String.length (String d "")) with 1%nat in Hs.
    rewrite Hs. reflexivity.
Qed.

Lemma toFixed1_shape (x : Q) :
  (0 <= x)%Q ->
  JS.toFixed 1 x =
  JS.decimalDigits (tenths x / 10) ++ "."
  ++ String (JS.digitChar (tenths x mod 10)) "".
Proof.
  intros Hx. unfold JS.toFixed.
  apply Qle_bool_iff in Hx. rewrite Hx. apply toFixedAbs1_shape.
Qed.



(** Reading a rendered rate back gives the double nearest to the number
    it shows: its whole part plus its digit over ten. *)
Lemma Number_toFixed1 (x : Q) :
  (0 <= x)%Q ->
  JS.Number (JS.toFixed 1 x)
  = Some (JS.round64
            (inject_Z (Z.of_N (tenths x / 10))
             + inject_Z (Z.of_N (tenths x mod 10)) / inject_Z 10)).
Proof.
  intros Hx. rewrite (toFixed1_shape x Hx).
  set (n := tenths x).
  unfold JS.Number.
  change ("." ++ String (JS.digitChar (n mod 10)) "")
    with (String "." (String (JS.digitChar (n mod 10)) "")).
  rewrite splitDot_digits by apply allDigits_decimalDigits.
  destruct (String.eqb_spec (JS.decimalDigits (n / 10)) "") as [He|_].
  { exfalso. exact (decimalDigits_nonempty _ He). }
  simpl andb. cbv iota.
  rewrite digitsValue_decimalDigits.
  simpl JS.digitsValue.
  rewrite digitVal_digitChar by (apply N.mod_lt; discriminate).
  replace (n mod 10 + 0)%N with (n mod 10)%N by lia.
  reflexivity.
Qed.

End ToFixedFacts.

(** ** [Array.prototype.sort] with a comparator that subtracts keys *)

Section SortFacts.
Context {A : Type} (comparefn : A -> A -> option Q).
Context (key : A -> Q) (good : A -> Prop).

(** On the elements at hand the comparator is the double [key b - key a],
    that is, it asks for descending keys. *)
Hypothesis comparefn_key :
  forall a b, good a -> good b -> comparefn a b = Some (JS.fsub (key b) (key a)).

Lemma goesAfter_true x y :
  good x -> good y -> JS.goesAfter comparefn x y = true -> (key x < key y)%Q.
Proof.
  intros Hx Hy. unfold JS.goesAfter. rewrite (comparefn_key x y Hx Hy).
  intros H. apply negb_true_iff in H.
  destruct (Qlt_le_dec (key x) (key y)) as [Hlt|Hle]; [exact Hlt|].
  assert (Qle_bool (JS.fsub (key y) (key x)) 0 = true) as Hb.
  { apply Qle_bool_iff. unfold JS.fsub. apply (proj2 (round64_nonpos_iff _)). lra. }
  congruence.
Qed.

Lemma goesAfter_false x y :
  good x -> good y -> JS.goesAfter comparefn x y = false -> (key y <= key x)%Q.
Proof.
  intros Hx Hy. unfold JS.goesAfter. rewrite (comparefn_key x y Hx Hy).
  intros H. apply negb_false_iff in H. apply Qle_bool_iff in H.
  unfold JS.fsub in H. apply (proj1 (round64_nonpos_iff _)) in H. lra.
Qed.

(** Sorting rearranges: nothing is lost, nothing is added. *)
Lemma insert_perm x l : Permutation (JS.insert comparefn x l) (x :: l).
Proof.
  induction l as [|y l IH]; simpl.
  - apply Permutation_refl.
  - destruct (JS.goesAfter comparefn x y).
    + apply Permutation_trans with (y :: x :: l).
      * apply perm_skip. exact IH.
      * apply perm_swap.
    + apply Permutation_refl.
Qed.

Lemma sort_perm l : Permutation (JS.sort comparefn l) l.
Proof.
  induction l as [|x l IH]; simpl.
  - apply perm_nil.
  - apply Permutation_trans with (x :: JS.sort comparefn l).
    + apply insert_perm.
    + apply perm_skip. exact IH.
Qed.

Lemma sort_good l : Forall good l -> Forall good (JS.sort comparefn l).
Proof.
  intros H. apply (Permutation_Forall (Permutation_sym (sort_perm l))).
  exact H.
Qed.

(** Sorting orders the keys downwards. *)
Lemma insert_sorted x l :
  good x -> Forall good l ->
  StronglySorted (keyGe key) l -> StronglySorted (keyGe key) (JS.insert comparefn x l).
Proof.
  intros Hx. induction l as [|y l IH]; intros Hl Hs; simpl.
  - constructor; constructor.
  - inversion Hl as [|? ? Hy Hl']; subst.
    inversion Hs as [|? ? Hs' Hall]; subst.
    destruct (JS.goesAfter comparefn x y) eqn:Hg.
    + apply goesAfter_true in Hg; try assumption.
      constructor; [apply IH; assumption|].
      apply (Permutation_Forall (Permutation_sym (insert_perm x l))).
      constructor; [unfold keyGe; lra | exact Hall].
    + apply goesAfter_false in Hg; try assumption.
      constructor; [exact Hs|].
      constructor; [exact Hg|].
      eapply Forall_impl; [|exact Hall].
      unfold keyGe. intros z Hz. lra.
Qed.

Lemma sort_sorted l :
  Forall good l -> StronglySorted (keyGe key) (JS.sort comparefn l).
Proof.
  induction l as [|x l IH]; intros Hl; simpl.
  - constructor.
  - inversion Hl; subst. apply insert_sorted.
    + assumption.
    + apply sort_good. assumption.
    + apply IH. assumption.
Qed.

(** Stability: among the elements with one and the same key, inserting
    keeps the new element in front. *)
Lemma insert_stable k x l :
  good x -> Forall good l ->
  filter (keyIs key k) (JS.insert comparefn x l) = filter (keyIs key k) (x :: l).
Proof.
  intros Hx. induction l as [|y l IH]; intros Hl; [reflexivity|].
  inversion Hl as [|? ? Hy Hl']; subst.
  cbn [JS.insert]. destruct (JS.goesAfter comparefn x y) eqn:Hg.
  - apply goesAfter_true in Hg; try assumption.
    cbn [filter]. rewrite (IH Hl'). cbn [filter].
    unfold keyIs.
    destruct (Qeq_bool (key x) k) eqn:Ex; [|reflexivity].
    destruct (Qeq_bool (key y) k) eqn:Ey; [|reflexivity].
    apply Qeq_bool_iff in Ex, Ey. lra.
  - reflexivity.
Qed.

Lemma sort_stable k l :
  Forall good l ->
  filter (keyIs key k) (JS.sort comparefn l) = filter (keyIs key k) l.
Proof.
  induction l as [|x l IH]; intros Hl; [reflexivity|].
  inversion Hl; subst. cbn [JS.sort fold_right].
  change (fold_right (JS.insert comparefn) [] l) with (JS.sort comparefn l).
  rewrite insert_stable; [|assumption|apply sort_good; assumption].
  cbn [filter]. rewrite IH by assumption. reflexivity.
Qed.

End SortFacts.

(** ** The analytics page: totals and the response distribution *)

Section AnalyticsTotals.
Import Analytics.

Lemma answeredOf_nonneg q : 0 <= answeredOf q.
Proof. unfold answeredOf, JS.orZero. lia. Qed.

Lemma skippedOf_nonneg q : 0 <= skippedOf q.
Proof. unfold skippedOf, JS.orZero. destruct (timesSkipped q); lia. Qed.

(** *** The running sum of a [reduce] over non-negative counters *)

Section RunningSum.
Context {A : Type} (f : A -> Z).
Hypothesis f_nonneg : forall x, 0 <= f x.

Lemma sumZ_cons (x : Z) (l : list Z) : sumZ (x :: l) = x + sumZ l.
Proof. reflexivity. Qed.

Lemma sumZ_map_nonneg l : 0 <= sumZ (map f l).
Proof.
  induction l as [|x l IH]; [reflexivity|].
  unfold sumZ in *. cbn [map fold_right]. pose proof (f_nonneg x). lia.
Qed.

Lemma sumZ_filter_le (keep : A -> bool) l :
  sumZ (map f (filter keep l)) <= sumZ (map f l).
Proof.
  induction l as [|x l IH]; [reflexivity|].
  cbn [filter]. pose proof (f_nonneg x).
  destruct (keep x); unfold sumZ in *; cbn [map fold_right]; lia.
Qed.

Lemma running_sum_nonneg l : forall acc,
  0 <= acc -> 0 <= fold_left (fun sum x => JS.addInt sum (f x)) l acc.
Proof.
  induction l as [|x l IH]; intros acc Hacc; [exact Hacc|].
  cbn [fold_left]. apply IH. apply addInt_nonneg; [exact Hacc | apply f_nonneg].
Qed.

(** The sum is a double. *)
Lemma running_sum_double l : forall acc,
  0 <= acc -> JS.roundInt acc = acc ->
  JS.roundInt (fold_left (fun sum x => JS.addInt sum (f x)) l acc)
  = fold_left (fun sum x => JS.addInt sum (f x)) l acc.
Proof.
  induction l as [|x l IH]; intros acc Hacc Hd; [exact Hd|].
  cbn [fold_left]. apply IH.
  - apply addInt_nonneg; [exact Hacc | apply f_nonneg].
  - apply addInt_idem; [exact Hacc | apply f_nonneg].
Qed.

(** Below 2^53 it is the exact sum ... *)
Lemma running_sum_exact l : forall acc,
  0 <= acc -> acc + sumZ (map f l) < 2 ^ 53 ->
  fold_left (fun sum x => JS.addInt sum (f x)) l acc = acc + sumZ (map f l).
Proof.
  induction l as [|x l IH]; intros acc Hacc Hb.
  - unfold sumZ. cbn. lia.
  - pose proof (f_nonneg x) as Hx. pose proof (sumZ_map_nonneg l) as Hl.
    unfold sumZ in *. cbn [map fold_right fold_left] in *.
    rewrite addInt_exact by lia. rewrite IH by lia. lia.
Qed.

(** ... and it is below 2^53 only when the exact sum is. *)
Lemma running_sum_below l : forall acc,
  0 <= acc ->
  fold_left (fun sum x => JS.addInt sum (f x)) l acc < 2 ^ 53 ->
  acc + sumZ (map f l) < 2 ^ 53.
Proof.
  induction l as [|x l IH]; intros acc Hacc Hb.
  - unfold sumZ. cbn in *. lia.
  - pose proof (f_nonneg x) as Hx. pose proof (sumZ_map_nonneg l) as Hl.
    cbn [fold_left] in Hb.
    pose proof (addInt_nonneg acc (f x) Hacc Hx) as Hstep.
    pose proof (IH _ Hstep Hb) as Hrest.
    destruct (addInt_below acc (f x) Hacc Hx ltac:(lia)) as [_ He].
    unfold sumZ in *. cbn [map fold_right]. lia.
Qed.

End RunningSum.

Lemma totalAnswered_nonneg qs : 0 <= totalAnswered qs.
Proof. apply (running_sum_nonneg _ answeredOf_nonneg). lia. Qed.

Lemma totalSkipped_nonneg qs : 0 <= totalSkipped qs.
Proof. apply (running_sum_nonneg _ skippedOf_nonneg). lia. Qed.

Lemma totalAnswered_double qs : JS.roundInt (totalAnswered qs) = totalAnswered qs.
Proof. apply (running_sum_double _ answeredOf_nonneg); [lia | reflexivity]. Qed.

Lemma totalSkipped_double qs : JS.roundInt (totalSkipped qs) = totalSkipped qs.
Proof. apply (running_sum_double _ skippedOf_nonneg); [lia | reflexivity]. Qed.

(** Below 2^53 the header totals are the exact sums of the counters. *)
Lemma totalAnswered_exact qs :
  totalAnswered qs < 2 ^ 53 ->
  totalAnswered qs = sumZ (map answeredOf qs) /\ sumZ (map answeredOf qs) < 2 ^ 53.
Proof.
  intros Hb.
  pose proof (running_sum_below _ answeredOf_nonneg qs 0 ltac:(lia) Hb) as Hs.
  split; [|lia].
  unfold totalAnswered. rewrite (running_sum_exact _ answeredOf_nonneg) by lia.
  lia.
Qed.

Lemma totalSkipped_exact qs :
  totalSkipped qs < 2 ^ 53 ->
  totalSkipped qs = sumZ (map skippedOf qs) /\ sumZ (map skippedOf qs) < 2 ^ 53.
Proof.
  intros Hb.
  pose proof (running_sum_below _ skippedOf_nonneg qs 0 ltac:(lia) Hb) as Hs.
  split; [|lia].
  unfold totalSkipped. rewrite (running_sum_exact _ skippedOf_nonneg) by lia.
  lia.
Qed.

Lemma from_exact_answered qs :
  sumZ (map answeredOf qs) < 2 ^ 53 -> totalAnswered qs = sumZ (map answeredOf qs).
Proof.
  intros Hb. unfold totalAnswered.
  rewrite (running_sum_exact _ answeredOf_nonneg) by lia. lia.
Qed.

Lemma from_exact_skipped qs :
  sumZ (map skippedOf qs) < 2 ^ 53 -> totalSkipped qs = sumZ (map skippedOf qs).
Proof.
  intros Hb. unfold totalSkipped.
  rewrite (running_sum_exact _ skippedOf_nonneg) by lia. lia.
Qed.

Lemma totalResponses_exact qs :
  totalResponses qs < 2 ^ 53 ->
  totalResponses qs = totalAnswered qs + totalSkipped qs
  /\ totalAnswered qs + totalSkipped qs < 2 ^ 53.
Proof.
  intros Hb. unfold totalResponses in *.
  destruct (addInt_below _ _ (totalAnswered_nonneg qs) (totalSkipped_nonneg qs) Hb)
    as [Hs He].
  split; assumption.
Qed.


(** *** Raw counts *)

Lemma flagged_cons flag a l :
  flagged flag (a :: l)
  = ((if sameFlag (isCorrect a) flag then 1 else 0) + flagged flag l)%nat.
Proof.
  unfold flagged. cbn [filter]. unfold hasFlag at 1.
  destruct (sameFlag (isCorrect a) flag); reflexivity.
Qed.

Lemma countAnswer_fold l : forall acc,
  fold_left countAnswer l acc
  = (fst acc + Z.of_nat (flagged (Some true) l),
     snd acc + Z.of_nat (flagged (Some false) l)).
Proof.
  induction l as [|a l IH]; intros [c i].
  - simpl. f_equal; lia.
  - cbn [fold_left]. rewrite IH, !flagged_cons. unfold countAnswer.
    destruct (isCorrect a) as [[|]|]; cbn [fst snd sameFlag Bool.eqb];
      f_equal; lia.
Qed.

Lemma countQuestion_fold l : forall acc,
  fold_left countQuestion l acc
  = (fst acc + Z.of_nat (flagged (Some true) (flat_map optionsOf l)),
     snd acc + Z.of_nat (flagged (Some false) (flat_map optionsOf l))).
Proof.
  induction l as [|q l IH]; intros [c i].
  - simpl. f_equal; lia.
  - cbn [fold_left flat_map]. rewrite IH.
    unfold flagged. rewrite !filter_app, !length_app.
    unfold countQuestion, optionsOf.
    destruct (answers q) as [opts|].
    + rewrite countAnswer_fold. unfold flagged. cbn [fst snd].
      f_equal; lia.
    + cbn [fst snd filter List.length]. f_equal; lia.
Qed.

(** The two loops count the options flagged [true] and those flagged
    [false]. *)
Lemma rawCounts_flagged qs :
  rawCounts qs
  = (Z.of_nat (flagged (Some true) (embeddedOptions qs)),
     Z.of_nat (flagged (Some false) (embeddedOptions qs))).
Proof.
  unfold rawCounts, embeddedOptions, inputQuestionsForPie.
  rewrite countQuestion_fold. reflexivity.
Qed.

Lemma flagged_partition l :
  (flagged (Some true) l + flagged (Some false) l + flagged None l
   = List.length l)%nat.
Proof.
  induction l as [|a l IH]; [reflexivity|].
  rewrite !flagged_cons. cbn [List.length].
  destruct (isCorrect a) as [[|]|]; cbn [sameFlag Bool.eqb]; lia.
Qed.

Lemma correctResponses_le_raw qs :
  0 <= correctResponses qs <= totalAnsweredFromInputs qs.
Proof.
  unfold totalAnsweredFromInputs, correctResponses, incorrectResponses.
  rewrite rawCounts_flagged. cbn [fst snd]. lia.
Qed.

(** *** [Math.round] of a share of a total *)

Lemma Math_round_Z (t : Z) : JS.Math_round (inject_Z t + 0) = t.
Proof.
  unfold JS.Math_round. unfold Qfloor, Qplus, inject_Z. simpl.
  rewrite !Z.mul_1_r, Z.add_0_r.
  replace (t * 2 + 1) with (1 + t * 2) by lia.
  rewrite Z.div_add by discriminate. reflexivity.
Qed.

Lemma Math_round_range (x : Q) (t : Z) :
  (0 <= x)%Q -> (x <= inject_Z t)%Q -> 0 <= JS.Math_round x <= t.
Proof.
  intros H0 Ht. unfold JS.Math_round. split.
  - change 0 with (Qfloor 0). apply Qfloor_resp_le. lra.
  - apply Z.le_trans with (JS.Math_round (inject_Z t + 0)).
    + unfold JS.Math_round. apply Qfloor_resp_le. lra.
    + rewrite Math_round_Z. apply Z.le_refl.
Qed.

(** Both slices of the pie are non-negative and at most [totalAnswered]. *)
Lemma finalCorrectResponses_range qs :
  totalAnswered qs < 2 ^ 53 ->
  0 <= finalCorrectResponses qs <= totalAnswered qs.
Proof.
  intros Hbound. unfold finalCorrectResponses.
  pose proof (totalAnswered_nonneg qs) as Ht.
  destruct (Z.ltb_spec 0 (totalAnsweredFromInputs qs)) as [Hr|_]; [|lia].
  pose proof (correctResponses_le_raw qs) as Hc.
  pose proof (fdiv_range _ _ Hc Hr) as Hd.
  destruct (fmul_range _ (totalAnswered qs) Hd ltac:(lia)) as [H0 H1].
  apply Math_round_range; assumption.
Qed.

(** Below 2^53 the subtraction is exact. *)
Lemma finalIncorrectResponses_exact qs :
  totalAnswered qs < 2 ^ 53 ->
  finalIncorrectResponses qs = totalAnswered qs - finalCorrectResponses qs.
Proof.
  intros Hb. pose proof (finalCorrectResponses_range qs Hb) as Hc.
  unfold finalIncorrectResponses, JS.subInt. apply roundInt_exact. lia.
Qed.

(** Taking nothing away from the total leaves it, at any magnitude. *)
Lemma finalIncorrectResponses_whole qs :
  finalCorrectResponses qs = 0 ->
  finalIncorrectResponses qs = totalAnswered qs.
Proof.
  intros Hc. unfold finalIncorrectResponses, JS.subInt.
  rewrite Hc, Z.sub_0_r. apply totalAnswered_double.
Qed.

End AnalyticsTotals.

Section DistributionClaims.
Import Analytics.

(** C1, as stated, fails once the answered counter passes 2^53: with one
    option in four flagged correct and 13510798882111490 answers the
    correct slice is 3377699720527873, the difference is odd and above
    2^53, so the double holding it is 10133099161583616, and the two
    slices add up to one less than the counter. *)
Lemma large_total_distribution_drifts :
  totalAnswered [quarterCorrectInput] = 13510798882111490
  /\ finalCorrectResponses [quarterCorrectInput] = 3377699720527873
  /\ finalIncorrectResponses [quarterCorrectInput] = 10133099161583616
  /\ finalCorrectResponses [quarterCorrectInput]
     + finalIncorrectResponses [quarterCorrectInput]
     <> totalAnswered [quarterCorrectInput]
  /\ JS.addInt (finalCorrectResponses [quarterCorrectInput])
               (finalIncorrectResponses [quarterCorrectInput])
     <> totalAnswered [quarterCorrectInput].
Proof.
  split; [vm_compute; reflexivity|]. split; [vm_compute; reflexivity|].
  split; [vm_compute; reflexivity|].
  split; intros H; vm_compute in H; discriminate H.
Qed.

(** C1, amended.  For every list of questions whose answered counter is
    below 2^53 the two outputs of the correctness distributor add up to
    the counter: [finalCorrect + finalIncorrect = totalAnswered], where
    [finalCorrect] is [round (correct / rawTotal * totalAnswered)] when
    [rawTotal > 0] and [0] otherwise, and [finalIncorrect] is
    [totalAnswered - finalCorrect]. *)
Theorem distribution_sums_to_totalAnswered (qs : list Question) :
  totalAnswered qs < 2 ^ 53 ->
  finalCorrectResponses qs + finalIncorrectResponses qs = totalAnswered qs
  /\ finalCorrectResponses qs =
     (if 0 <? totalAnsweredFromInputs qs
      then JS.Math_round
             (JS.fmul
                (JS.fdiv (inject_Z (correctResponses qs))
                         (inject_Z (totalAnsweredFromInputs qs)))
                (inject_Z (totalAnswered qs)))
      else 0)
  /\ finalIncorrectResponses qs = totalAnswered qs - finalCorrectResponses qs.
Proof.
  intros Hb. pose proof (finalIncorrectResponses_exact qs Hb) as Hi.
  split; [|split].
  - rewrite Hi. lia.
  - reflexivity.
  - exact Hi.
Qed.

Lemma distribution_sums_to_totalAnswered_witness :
  totalAnswered [unflaggedInput; answeredMcq] < 2 ^ 53
  /\ finalCorrectResponses [unflaggedInput; answeredMcq]
     + finalIncorrectResponses [unflaggedInput; answeredMcq]
     = totalAnswered [unflaggedInput; answeredMcq].
Proof.
  split; [vm_compute; reflexivity|].
  apply (distribution_sums_to_totalAnswered [unflaggedInput; answeredMcq]).
  vm_compute. reflexivity.
Defined.

(** The worked example of the distribution: one [Input] question with
    the options true, true, false and 30 answers gives 20 and 10. *)
Example distribution_example :
  let q := mkQuestion "q1" "who" "Input" "c" "Beginner" 30 None
             (Some [mkAnswerOption "a" (Some true);
                    mkAnswerOption "b" (Some true);
                    mkAnswerOption "c" (Some false)]) in
  totalAnsweredFromInputs [q] = 3 /\ correctResponses [q] = 2
  /\ finalCorrectResponses [q] = 20 /\ finalIncorrectResponses [q] = 10.
Proof. cbv zeta. repeat split; vm_compute; reflexivity. Qed.

(** Seven options flagged [true], three flagged [false], 45 answers: the
    exact share is 31.5, the double [0.7 * 45] lies just below it, and
    [Math.round] gives 31. *)
Example distribution_below_half :
  let flags := [true; true; true; true; true; true; true; false; false; false] in
  let q := mkQuestion "q1" "who" "Input" "c" "Beginner" 45 None
             (Some (map (fun b => mkAnswerOption "a" (Some b)) flags)) in
  correctResponses [q] = 7 /\ totalAnsweredFromInputs [q] = 10
  /\ finalCorrectResponses [q] = 31 /\ finalIncorrectResponses [q] = 14.
Proof. cbv zeta. repeat split; vm_compute; reflexivity. Qed.

(** C2, as stated, fails: with no flagged option at all ([rawTotal = 0])
    and five recorded answers the incorrect slice is 5, not 0. *)
Lemma zero_raw_total_incorrect_not_zero :
  totalAnsweredFromInputs [answeredMcq] = 0
  /\ ~ (finalCorrectResponses [answeredMcq] = 0
        /\ finalIncorrectResponses [answeredMcq] = 0).
Proof.
  split; [reflexivity|].
  intros [_ H]. vm_compute in H. discriminate H.
Qed.

(** C2, amended.  When the raw counts total zero the correct slice is
    zero and the incorrect slice is the whole answered counter; both are
    zero exactly when [totalAnswered] is zero. *)
Theorem zero_raw_total_distribution (qs : list Question) :
  totalAnsweredFromInputs qs = 0 ->
  finalCorrectResponses qs = 0
  /\ finalIncorrectResponses qs = totalAnswered qs
  /\ (finalIncorrectResponses qs = 0 <-> totalAnswered qs = 0).
Proof.
  intros Hraw.
  assert (finalCorrectResponses qs = 0) as Hc.
  { unfold finalCorrectResponses. rewrite Hraw. reflexivity. }
  assert (finalIncorrectResponses qs = totalAnswered qs) as Hi
    by (apply finalIncorrectResponses_whole; exact Hc).
  split; [exact Hc|]. split; [exact Hi|]. rewrite Hi. tauto.
Qed.

Lemma zero_raw_total_distribution_witness :
  totalAnsweredFromInputs [answeredMcq] = 0
  /\ finalCorrectResponses [answeredMcq] = 0
  /\ finalIncorrectResponses [answeredMcq] = totalAnswered [answeredMcq]
  /\ (finalIncorrectResponses [answeredMcq] = 0
      <-> totalAnswered [answeredMcq] = 0).
Proof.
  split; [reflexivity|].
  apply (zero_raw_total_distribution [answeredMcq]). reflexivity.
Defined.

(** C9.  An embedded option whose [isCorrect] is neither [true] nor
    [false] is counted in neither raw total: the correct count is the
    number of options flagged [true], the incorrect count the number
    flagged [false], so [rawTotal] is the number of embedded options of
    the [Input] questions minus the unflagged ones, and it can be
    strictly smaller than that number. *)
Theorem unflagged_options_not_counted :
  (forall qs : list Question,
     correctResponses qs
     = Z.of_nat (flagged (Some true) (embeddedOptions qs))
     /\ incorrectResponses qs
        = Z.of_nat (flagged (Some false) (embeddedOptions qs))
     /\ totalAnsweredFromInputs qs
        = Z.of_nat (List.length (embeddedOptions qs))
          - Z.of_nat (flagged None (embeddedOptions qs)))
  /\ (exists qs : list Question,
        totalAnsweredFromInputs qs
        < Z.of_nat (List.length (embeddedOptions qs))).
Proof.
  split.
  - intros qs.
    unfold totalAnsweredFromInputs, correctResponses, incorrectResponses.
    rewrite rawCounts_flagged. cbn [fst snd].
    pose proof (flagged_partition (embeddedOptions qs)) as Hp.
    repeat split; lia.
  - exists [unflaggedInput]. reflexivity.
Qed.

End DistributionClaims.

(** ** Skip rates and per-level counts *)

Section RateFacts.
Import Analytics.




(** 23 skips in 80 responses: the exact rate is 28.75, the double
    [23 / 80 * 100] lies just below it, and the page shows 28.7. *)
Example overallSkipRate_below_tie :
  overallSkipRate
    [mkQuestion "a" "first" "Input" "c" "Beginner" 57 (Some 23%N) None]
  = "28.7"%string.
Proof. vm_compute. reflexivity. Qed.

(** *** Answers per level *)

Lemma answeredAt_cons level q qs :
  answeredAt level (q :: qs)
  = (if (questionLevel q =? level)%string then Z.of_N (timesAnswered q) else 0)
    + answeredAt level qs.
Proof.
  unfold answeredAt. cbn [filter].
  destruct (questionLevel q =? level)%string; reflexivity.
Qed.

(** The three exact-match filters split the questions with a recognized
    level. *)
Lemma levels_partition qs :
  answeredAt "Beginner" qs + answeredAt "Intermediate" qs
  + answeredAt "Advanced" qs
  = sumZ (map answeredOf (filter recognizedLevel qs)).
Proof.
  induction qs as [|q qs IH]; [reflexivity|].
  rewrite !answeredAt_cons. cbn [filter].
  unfold recognizedLevel at 1. unfold LEVELS. cbn [existsb].
  destruct (String.eqb_spec (questionLevel q) "Beginner") as [E|_].
  { rewrite E. cbn [orb map]. rewrite sumZ_cons.
    change (("Beginner" =? "Intermediate")%string) with false.
    change (("Beginner" =? "Advanced")%string) with false.
    change (answeredOf q) with (Z.of_N (timesAnswered q)). lia. }
  destruct (String.eqb_spec (questionLevel q) "Intermediate") as [E|_].
  { rewrite E. cbn [orb map]. rewrite sumZ_cons.
    change (("Intermediate" =? "Advanced")%string) with false.
    change (answeredOf q) with (Z.of_N (timesAnswered q)). lia. }
  destruct (String.eqb_spec (questionLevel q) "Advanced") as [E|_].
  { cbn [orb map]. rewrite sumZ_cons.
    change (answeredOf q) with (Z.of_N (timesAnswered q)). lia. }
  cbn [orb]. lia.
Qed.

(** Below 2^53 every part of the answered counter is an exact sum. *)
Lemma part_answered_exact (keep : Question -> bool) qs :
  totalAnswered qs < 2 ^ 53 ->
  totalAnswered (filter keep qs) = sumZ (map answeredOf (filter keep qs)).
Proof.
  intros Hb. destruct (totalAnswered_exact qs Hb) as [_ Hs].
  apply from_exact_answered.
  pose proof (sumZ_filter_le answeredOf answeredOf_nonneg keep qs). lia.
Qed.

Lemma levelAnswerCounts_shape qs :
  totalAnswered qs < 2 ^ 53 ->
  levelAnswerCounts qs =
  [answeredAt "Beginner" qs; answeredAt "Intermediate" qs;
   answeredAt "Advanced" qs].
Proof.
  intros Hb.
  assert (forall level,
            fold_left (fun sum q => JS.addInt sum (answeredOf q))
              (filter (fun q => (questionLevel q =? level)%string) qs) 0
            = answeredAt level qs) as Hentry.
  { intros level.
    exact (part_answered_exact (fun q => (questionLevel q =? level)%string)
             qs Hb). }
  unfold levelAnswerCounts, LEVELS. cbn [map]. rewrite !Hentry. reflexivity.
Qed.




End RateFacts.

(** ** The view state: loading, empty, error, ready *)

Section ViewClaims.
Import Analytics.

Lemma signal_is_empty_view st message :
  isEmptySignal message = true ->
  render (settleFetch (startFetch st) (Rejected message)) = EmptyView.
Proof. intros H. unfold settleFetch. rewrite H. reflexivity. Qed.

(** Both routes to the empty view hold for whatever state the page is in
    when the fetch settles. *)
Lemma settle_signal_is_empty_view st message :
  isEmptySignal message = true ->
  render (settleFetch st (Rejected message)) = EmptyView.
Proof. intros H. unfold settleFetch. rewrite H. reflexivity. Qed.

Lemma settle_empty_fetch_is_empty_view st fetched :
  render (settleFetch st (Resolved [] fetched)) = EmptyView.
Proof. reflexivity. Qed.

(** C3, as stated, fails on the lower-case marker: a rejected fetch whose
    message is "no questions" contains the marker "no questions" and is
    shown as an error, not as the empty state. *)
Lemma lowercase_no_questions_is_error :
  occursIn "no questions" "no questions"
  /\ render (handleRefresh initialState (Rejected (Some "no questions"%string)))
     = ErrorView "no questions"
  /\ render (fetchData initialState (Rejected (Some "no questions"%string)))
     <> EmptyView.
Proof.
  split; [exists ""%string, ""%string; reflexivity|].
  split; [reflexivity | discriminate].
Qed.

(** C3, amended.  A failed fetch whose message contains "404",
    "No questions" (with the capital N, the match is case-sensitive) or
    "empty" is routed to the empty state, by [handleRefresh] and by
    [fetchData] alike; the message "404 no questions found" is one of
    them, through its "404". *)
Theorem empty_signal_routes_to_empty (st : State) (message : string) :
  occursIn "404" message \/ occursIn "No questions" message
  \/ occursIn "empty" message ->
  render (handleRefresh st (Rejected (Some message))) = EmptyView
  /\ render (fetchData st (Rejected (Some message))) = EmptyView
  /\ render (handleRefresh st (Rejected (Some "404 no questions found"%string)))
     = EmptyView.
Proof.
  intros H.
  assert (isEmptySignal (Some message) = true) as Hsig.
  { unfold isEmptySignal. rewrite !orb_true_iff, !includes_iff. tauto. }
  split; [|split].
  - apply signal_is_empty_view. exact Hsig.
  - apply signal_is_empty_view. exact Hsig.
  - reflexivity.
Qed.

Lemma empty_signal_routes_to_empty_witness :
  occursIn "404" "404 no questions found"
  /\ render (handleRefresh initialState
               (Rejected (Some "404 no questions found"%string)))
     = EmptyView.
Proof.
  assert (occursIn "404" "404 no questions found") as Hocc
    by (exists ""%string, " no questions found"%string; reflexivity).
  split; [exact Hocc|].
  apply (empty_signal_routes_to_empty initialState "404 no questions found").
  left. exact Hocc.
Defined.

(** C4.  A fetch that succeeds with zero questions ends in the empty
    view, never in the error view, whatever the state before; and a
    settled state whose empty flag is set renders the empty view whether
    or not an error message is set as well. *)
Theorem empty_fetch_is_empty_view
    (st : State) (fetchedAnswers : list Answer)
    (qs : list Question) (stored : list Answer) (e : option string) :
  render (handleRefresh st (Resolved [] fetchedAnswers)) = EmptyView
  /\ render (fetchData st (Resolved [] fetchedAnswers)) = EmptyView
  /\ (forall message,
        render (handleRefresh st (Resolved [] fetchedAnswers))
        <> ErrorView message)
  /\ render {| questions := qs; answersOf := stored; loading := false;
               err := e; isEmpty := true |} = EmptyView.
Proof.
  split; [reflexivity|]. split; [reflexivity|].
  split; [intros message; discriminate | reflexivity].
Qed.

End ViewClaims.

(** ** The most skipped questions *)

Section RankingClaims.
Import Analytics.


Lemma rate_nonneg (s t : Z) :
  0 <= s -> 0 < t ->
  (0 <= JS.fmul (JS.fdiv (inject_Z s) (inject_Z t)) 100)%Q.
Proof.
  intros Hs Ht. unfold JS.fmul, JS.fdiv.
  pose proof (inject_Z_nonneg s Hs) as Hs'. pose proof (inject_Z_pos t Ht) as Ht'.
  assert (0 <= JS.round64 (inject_Z s / inject_Z t))%Q as Hd.
  { apply round64_nonneg. apply Qle_shift_div_l; [exact Ht'|]. lra. }
  apply round64_nonneg. apply Qmult_le_0_compat; [exact Hd | discriminate].
Qed.


Lemma question_rate_nonneg q :
  0 < JS.addInt (answeredOf q) (skippedOf q) ->
  (0 <= JS.fmul
          (JS.fdiv (inject_Z (skippedOf q))
                   (inject_Z (JS.addInt (answeredOf q) (skippedOf q))))
          100)%Q.
Proof. intros Hpos. apply rate_nonneg; [apply skippedOf_nonneg | exact Hpos]. Qed.



(** The filter of the code keeps the questions of type [Input], all of
    them and nothing else. *)
Lemma inputQuestions_inputsOf qs : inputQuestions qs = inputsOf qs.
Proof.
  unfold inputQuestions, inputsOf. apply filter_ext. intros q. unfold isInput.
  destruct (string_dec (questionType q) "Input") as [E|E].
  - apply String.eqb_eq. exact E.
  - apply String.eqb_neq. exact E.
Qed.

Lemma inputsOf_spec qs q :
  In q (inputsOf qs) <-> In q qs /\ questionType q = "Input"%string.
Proof.
  unfold inputsOf. rewrite filter_In.
  destruct (string_dec (questionType q) "Input") as [E|E]; split;
    intros [H1 H2]; split; try assumption; try reflexivity;
    try discriminate; contradiction.
Qed.









(** The number the comparator reads from an entry is the double nearest to
    the rate the entry shows. *)
Lemma numericSkipRate_value q :
  0 < JS.addInt (answeredOf q) (skippedOf q) ->
  let shown :=
    tenths (JS.fmul
              (JS.fdiv (inject_Z (skippedOf q))
                       (inject_Z (JS.addInt (answeredOf q) (skippedOf q))))
              100) in
  numericSkipRate (withSkipRate q)
  = Some (JS.round64
            (inject_Z (Z.of_N (shown / 10))
             + inject_Z (Z.of_N (shown mod 10)) / inject_Z 10)).
Proof.
  intros Hpos. cbv zeta. unfold numericSkipRate, withSkipRate. cbn [skipRate].
  destruct (Z.ltb_spec 0 (JS.addInt (answeredOf q) (skippedOf q))) as [_|Hle];
    [|lia].
  apply Number_toFixed1. apply (question_rate_nonneg q Hpos).
Qed.

(** Five questions: two [Input] questions tie at 50.0, a multiple-choice
    question has the highest raw rate, one [Input] question was never
    shown.  The multiple-choice one is left out, the tie keeps the order
    of the input, and the fourth candidate is cut. *)
Example mostSkipped_example :
  let qs :=
    [mkQuestion "a" "first" "Input" "c" "Beginner" 1 (Some 1%N) None;
     mkQuestion "b" "second" "Mcq" "c" "Beginner" 0 (Some 9%N) None;
     mkQuestion "c" "third" "Input" "c" "Advanced" 0 None None;
     mkQuestion "d" "fourth" "Input" "c" "Advanced" 2 (Some 2%N) None;
     mkQuestion "e" "fifth" "Input" "c" "Intermediate" 0 (Some 3%N) None] in
  map (fun e => (questionID (source e), skipRate e))
      (mostSkippedInputQuestions qs)
  = [("e", "100.0"); ("a", "50.0"); ("d", "50.0")]%string.
Proof. vm_compute. reflexivity. Qed.


End RankingClaims.

(** ** The survey builder: the working set *)

Section WorkingSetFacts.
Import Survey.

Lemma get_set_same m lvl l : get (set m lvl l) lvl = l.
Proof. destruct lvl; reflexivity. Qed.

Lemma get_set_other m lvl lvl' l :
  lvl <> lvl' -> get (set m lvl l) lvl' = get m lvl'.
Proof. destruct lvl, lvl'; intros H; try reflexivity; congruence. Qed.

Lemma length_removeAt {A : Type} (l : list A) : forall idx,
  (idx < List.length l)%nat ->
  List.length (removeAt idx l) = (List.length l - 1)%nat.
Proof.
  induction l as [|x l IH]; intros idx H; simpl in H; [lia|].
  destruct idx as [|idx]; simpl; [lia|].
  rewrite IH by lia. destruct l; simpl in *; lia.
Qed.

Lemma length_replaceAt {A : Type} (v : A) (l : list A) : forall idx,
  List.length (replaceAt idx v l) = List.length l.
Proof.
  induction l as [|x l IH]; intros idx; [destruct idx; reflexivity|].
  destruct idx; simpl; [reflexivity|]. rewrite IH. reflexivity.
Qed.

Lemma nonEmpty_length {A : Type} (l : list A) :
  l <> [] <-> (0 < List.length l)%nat.
Proof. destruct l; simpl; split; intros H; try congruence; lia. Qed.

Lemma set_nonEmpty m lvl l :
  everyLevelNonEmpty m -> l <> [] -> everyLevelNonEmpty (set m lvl l).
Proof.
  intros Hm Hl lvl'. destruct lvl, lvl'; cbn; try exact Hl;
    first [exact (Hm Beginner) | exact (Hm Intermediate) | exact (Hm Advanced)].
Qed.

(** The placeholders written at start-up and on "create mode". *)
Lemma initialize_nonEmpty st :
  showUIImmediately st = false ->
  everyLevelNonEmpty (questionsByLevel (initialize st)).
Proof.
  intros H lvl. unfold initialize. rewrite H.
  destruct lvl; cbn; discriminate.
Qed.

Lemma switchToCreateMode_nonEmpty st :
  everyLevelNonEmpty (questionsByLevel (switchToCreateMode true st)).
Proof. intros lvl. destruct lvl; cbn; discriminate. Qed.

(** Populating from a fetch: whatever was grouped, the second loop leaves
    no level empty. *)
Lemma ensure_nonEmpty m :
  everyLevelNonEmpty
    (fold_left
       (fun m lvl =>
          if (List.length (get m lvl) =? 0)%nat
          then set m lvl (get m lvl ++ [placeholder lvl])
          else m)
       LEVELS m).
Proof.
  destruct m as [[|b bs] [|i ms] [|a rest]]; intros lvl;
    destruct lvl; cbn; discriminate.
Qed.

Lemma populate_nonEmpty questions st :
  everyLevelNonEmpty (questionsByLevel st) ->
  everyLevelNonEmpty (questionsByLevel (populate questions st)).
Proof.
  intros Hst. unfold populate.
  destruct (negb (showUIImmediately st) || (List.length questions =? 0)%nat).
  - exact Hst.
  - apply ensure_nonEmpty.
Qed.

Lemma populate_runs_nonEmpty q questions st :
  showUIImmediately st = true ->
  everyLevelNonEmpty (questionsByLevel (populate (q :: questions) st)).
Proof.
  intros H. unfold populate. rewrite H. cbn [negb orb List.length Nat.eqb].
  apply ensure_nonEmpty.
Qed.

(** Deleting the current question keeps one entry: the guard returns
    early on a list of length one. *)
Lemma onDeleteCurrent_nonEmpty st :
  everyLevelNonEmpty (questionsByLevel st) ->
  everyLevelNonEmpty (questionsByLevel (fst (onDeleteCurrent st))).
Proof.
  intros Hst. unfold onDeleteCurrent.
  destruct (Nat.leb_spec (List.length (get (questionsByLevel st) (currentTab st))) 1)
    as [_|Hlen]; [exact Hst|].
  destruct (nth_error (get (questionsByLevel st) (currentTab st)) (currentIndex st))
    as [toDelete|] eqn:Hnth; [|exact Hst].
  cbn [fst]. unfold updateTabQuestions. cbn.
  apply set_nonEmpty; [exact Hst|].
  apply nonEmpty_length. rewrite length_removeAt.
  - lia.
  - apply nth_error_Some. congruence.
Qed.

(** Deleting a whole level leaves its placeholder. *)
Lemma confirmDeleteAllQuestions_nonEmpty st :
  everyLevelNonEmpty (questionsByLevel st) ->
  everyLevelNonEmpty (questionsByLevel (fst (confirmDeleteAllQuestions st))).
Proof.
  intros Hst. unfold confirmDeleteAllQuestions. cbn.
  apply set_nonEmpty; [exact Hst | discriminate].
Qed.

Lemma onAddQuestion_nonEmpty lvl st :
  everyLevelNonEmpty (questionsByLevel st) ->
  everyLevelNonEmpty (questionsByLevel (onAddQuestion lvl st)).
Proof.
  intros Hst. unfold onAddQuestion. cbn.
  apply set_nonEmpty; [exact Hst|].
  destruct (get (questionsByLevel st) lvl); discriminate.
Qed.

(** Editing any field in place keeps every list at its length. *)
Lemma onUpdateQuestion_in_place_nonEmpty field value st st' :
  everyLevelNonEmpty (questionsByLevel st) ->
  (if isField field FQuestionLevel then asLevel value else None) = None ->
  onUpdateQuestion field value st = Some st' ->
  everyLevelNonEmpty (questionsByLevel st').
Proof.
  intros Hst Hbranch Hrun. unfold onUpdateQuestion in Hrun.
  destruct (nth_error (get (questionsByLevel st) (currentTab st)) (currentIndex st))
    as [q|] eqn:Hnth; [|discriminate].
  rewrite Hbranch in Hrun. injection Hrun as <-.
  unfold updateTabQuestions. cbn.
  apply set_nonEmpty; [exact Hst|].
  apply nonEmpty_length. rewrite length_replaceAt.
  apply nonEmpty_length. apply Hst.
Qed.

(** Moving the current question to another level: the old level keeps
    what is left after the removal, with no placeholder added. *)
Lemma reassign_old_level st value newLevel q :
  asLevel value = Some newLevel ->
  newLevel <> currentTab st ->
  nth_error (get (questionsByLevel st) (currentTab st)) (currentIndex st)
  = Some q ->
  exists st',
    onUpdateQuestion FQuestionLevel value st = Some st'
    /\ get (questionsByLevel st') (currentTab st)
       = removeAt (currentIndex st) (get (questionsByLevel st) (currentTab st))
    /\ get (questionsByLevel st') newLevel
       = get (questionsByLevel st) newLevel
         ++ [setField q FQuestionLevel (levelName newLevel)].
Proof.
  intros Hlvl Hne Hnth. unfold onUpdateQuestion. rewrite Hnth.
  cbn [isField]. rewrite Hlvl. eexists. split; [reflexivity|].
  unfold updateTabQuestions. cbn.
  rewrite get_set_same. split; [|reflexivity].
  rewrite get_set_other by exact Hne. apply get_set_same.
Qed.

End WorkingSetFacts.

Section WorkingSetClaims.
Import Survey.

(** Whenever the current level holds a single entry, moving that entry
    to another level leaves the old level with no entry at all. *)
Lemma reassign_sole_entry_empties st value newLevel q :
  asLevel value = Some newLevel ->
  newLevel <> currentTab st ->
  get (questionsByLevel st) (currentTab st) = [q] ->
  currentIndex st = O ->
  exists st',
    onUpdateQuestion FQuestionLevel value st = Some st'
    /\ get (questionsByLevel st') (currentTab st) = [].
Proof.
  intros Hlvl Hne Hlist Hidx.
  destruct (reassign_old_level st value newLevel q Hlvl Hne) as (st' & Hrun & Hold & _).
  { rewrite Hlist, Hidx. reflexivity. }
  exists st'. split; [exact Hrun|].
  rewrite Hold, Hlist, Hidx. reflexivity.
Qed.

(** C5, the level reassignment.  In the builder loaded with one Beginner
    question every level has an entry; after [onUpdateQuestion] moves
    that question to Intermediate, Beginner has none: no placeholder is
    synthesized on this path. *)
Theorem reassign_leaves_level_without_entry :
  everyLevelNonEmpty (questionsByLevel loadedBuilder)
  /\ get (questionsByLevel loadedBuilder) Beginner = [soleBeginnerQuestion]
  /\ exists st',
       onUpdateQuestion FQuestionLevel "Intermediate" loadedBuilder = Some st'
       /\ get (questionsByLevel st') Beginner = []
       /\ get (questionsByLevel st') Intermediate
          = [placeholder Intermediate;
             setField soleBeginnerQuestion FQuestionLevel "Intermediate"]
       /\ ~ everyLevelNonEmpty (questionsByLevel st').
Proof.
  split.
  { unfold loadedBuilder. apply populate_runs_nonEmpty. reflexivity. }
  split; [reflexivity|].
  eexists. split; [reflexivity|].
  split; [reflexivity|]. split; [reflexivity|].
  intros H. apply (H Beginner). reflexivity.
Qed.

(** *** Batch create and update *)

Lemma isComplete_iff q :
  isComplete q = true <->
  allWhiteSpace (question q) = false
  /\ questionCategory q <> ""%string /\ questionLevel q <> ""%string.
Proof.
  unfold isComplete. rewrite !andb_true_iff, trim_truthy, !truthy_iff.
  rewrite negb_true_iff. tauto.
Qed.

Lemma newQuestion_incomplete category lvl :
  isComplete (newQuestion category lvl) = false.
Proof. reflexivity. Qed.

Lemma in_working_set (m : QMap) q :
  In q (flat_map (fun lvl => get m lvl) LEVELS) <-> exists lvl, In q (get m lvl).
Proof.
  rewrite in_flat_map. split.
  - intros (lvl & _ & H). exists lvl. exact H.
  - intros (lvl & H). exists lvl. split; [|exact H].
    destruct lvl; cbn; tauto.
Qed.

(** C10.  When the dialog is confirmed, [handleCreateNew] and
    [handleUpdate] make one call each, with the same batch: the questions
    of the working set whose text is not blank after trimming and whose
    category and level are non-empty.  No placeholder, no freshly added
    question and no other incomplete question is in the batch; when the
    dialog is dismissed nothing is submitted. *)
Theorem batch_holds_only_complete_questions (st : State) :
  exists batch,
    handleCreateNew true st = [CreateQuestions batch]
    /\ handleUpdate true st = [UpdateQuestions batch]
    /\ handleCreateNew false st = [] /\ handleUpdate false st = []
    /\ (forall q, In q batch <->
          (exists lvl, In q (get (questionsByLevel st) lvl))
          /\ JS.trim (question q) <> ""%string
          /\ questionCategory q <> ""%string
          /\ questionLevel q <> ""%string)
    /\ Forall (fun q => allWhiteSpace (question q) = false) batch
    /\ (forall q, isComplete q = false -> ~ In q batch)
    /\ (forall category lvl, ~ In (newQuestion category lvl) batch)
    /\ (forall lvl, ~ In (placeholder lvl) batch).
Proof.
  set (batch := filter isComplete
                  (flat_map (fun lvl => get (questionsByLevel st) lvl) LEVELS)).
  assert (forall q, isComplete q = false -> ~ In q batch) as Hinc.
  { intros q Hq Hin. apply filter_In in Hin as [_ Hc]. congruence. }
  exists batch. repeat (split; [reflexivity|]).
  split; [|split; [|split; [exact Hinc|split]]].
  - intros q. unfold batch. rewrite filter_In, in_working_set.
    unfold isComplete. rewrite !andb_true_iff, !truthy_iff. tauto.
  - apply Forall_forall. intros q Hin.
    apply filter_In in Hin as [_ Hc]. apply isComplete_iff in Hc. tauto.
  - intros category lvl. apply Hinc. apply newQuestion_incomplete.
  - intros lvl. apply Hinc. apply newQuestion_incomplete.
Qed.

End WorkingSetClaims.

(** * Further properties of the code *)

(** ** Exact quotients and products *)

Section Binary64Integers.

Lemma fdiv_same (c : Z) : 0 < c -> (JS.fdiv (inject_Z c) (inject_Z c) == 1)%Q.
Proof.
  intros Hc. unfold JS.fdiv. apply (round64_exact _ 1); [lia|].
  change (inject_Z 1) with 1%Q. field.
  intros H. pose proof (inject_Z_pos c Hc) as Hp. rewrite H in Hp.
  discriminate Hp.
Qed.

Lemma fdiv_zero (r : Q) : JS.fdiv 0 r = 0%Q.
Proof. unfold JS.fdiv. apply round64_zero. unfold Qdiv. ring. Qed.

Lemma fmul_zero_l (x y : Q) : (x == 0)%Q -> JS.fmul x y = 0%Q.
Proof. intros H. unfold JS.fmul. apply round64_zero. rewrite H. ring. Qed.

Lemma fmul_one_l (x : Q) (t : Z) :
  0 <= t < 2 ^ 53 -> (x == 1)%Q -> (JS.fmul x (inject_Z t) == inject_Z t)%Q.
Proof.
  intros Ht Hx. unfold JS.fmul. apply (round64_exact _ t Ht).
  rewrite Hx. ring.
Qed.

Lemma Math_round_exact (x : Q) (t : Z) :
  (x == inject_Z t)%Q -> JS.Math_round x = t.
Proof.
  intros Hx.
  transitivity (JS.Math_round (inject_Z t + 0)); [|apply Math_round_Z].
  unfold JS.Math_round. apply Qfloor_comp. rewrite Hx. ring.
Qed.

End Binary64Integers.

(** ** The analytics page: order of the questions, extremes, pie *)

Section AnalyticsMore.
Import Analytics.
Import AnalyticsWidgets.

Lemma Permutation_filter_keep {A : Type} (f : A -> bool) (l l' : list A) :
  Permutation l l' -> Permutation (filter f l) (filter f l').
Proof.
  induction 1 as [|x l l' H IH|x y l|l l' l'' H1 IH1 H2 IH2]; simpl.
  - constructor.
  - destruct (f x); [apply perm_skip|]; exact IH.
  - destruct (f x), (f y); try apply Permutation_refl. apply perm_swap.
  - eapply Permutation_trans; eassumption.
Qed.

Lemma sumZ_perm l l' : Permutation l l' -> sumZ l = sumZ l'.
Proof.
  unfold sumZ.
  induction 1 as [|x l l' H IH|x y l|l l' l'' H1 IH1 H2 IH2]; simpl; lia.
Qed.

Lemma sumZ_split {A : Type} (f : A -> Z) (keep : A -> bool) (l : list A) :
  sumZ (map f l)
  = sumZ (map f (filter keep l))
    + sumZ (map f (filter (fun x => negb (keep x)) l)).
Proof.
  induction l as [|x l IH]; [reflexivity|].
  cbn [filter map]. destruct (keep x); cbn [negb map];
    rewrite !sumZ_cons; lia.
Qed.

(** Below 2^53 the answered and the skipped counter are below it too. *)
Lemma totals_below qs :
  totalResponses qs < 2 ^ 53 ->
  totalAnswered qs < 2 ^ 53 /\ totalSkipped qs < 2 ^ 53.
Proof.
  intros Hb. destruct (totalResponses_exact qs Hb) as [_ Hs].
  pose proof (totalAnswered_nonneg qs). pose proof (totalSkipped_nonneg qs).
  lia.
Qed.

Lemma totalAnswered_perm qs qs' :
  Permutation qs qs' -> totalAnswered qs < 2 ^ 53 ->
  totalAnswered qs' = totalAnswered qs.
Proof.
  intros H Hb. destruct (totalAnswered_exact qs Hb) as [He Hs].
  rewrite He. rewrite (sumZ_perm _ _ (Permutation_map answeredOf H)) in *.
  apply from_exact_answered. exact Hs.
Qed.

Lemma totalSkipped_perm qs qs' :
  Permutation qs qs' -> totalSkipped qs < 2 ^ 53 ->
  totalSkipped qs' = totalSkipped qs.
Proof.
  intros H Hb. destruct (totalSkipped_exact qs Hb) as [He Hs].
  rewrite He. rewrite (sumZ_perm _ _ (Permutation_map skippedOf H)) in *.
  apply from_exact_skipped. exact Hs.
Qed.

Lemma answeredAt_perm level qs qs' :
  Permutation qs qs' -> answeredAt level qs = answeredAt level qs'.
Proof.
  intros H. unfold answeredAt. apply sumZ_perm. apply Permutation_map.
  apply Permutation_filter_keep. exact H.
Qed.

Lemma rawCounts_perm qs qs' :
  Permutation qs qs' -> rawCounts qs = rawCounts qs'.
Proof.
  intros H. rewrite !rawCounts_flagged.
  assert (Permutation (embeddedOptions qs) (embeddedOptions qs')) as Hp.
  { unfold embeddedOptions, inputQuestionsForPie.
    apply Permutation_flat_map. apply Permutation_filter_keep. exact H. }
  unfold flagged.
  rewrite (Permutation_length (Permutation_filter_keep (hasFlag (Some true)) _ _ Hp)).
  rewrite (Permutation_length (Permutation_filter_keep (hasFlag (Some false)) _ _ Hp)).
  reflexivity.
Qed.

(** X1.  While the number of responses is below 2^53, the header
    statistics, the bars and the pie do not depend on the order in which
    the questions arrive. *)
Theorem statistics_ignore_question_order (qs qs' : list Question) :
  Permutation qs qs' -> totalResponses qs < 2 ^ 53 ->
  totalAnswered qs = totalAnswered qs'
  /\ totalSkipped qs = totalSkipped qs'
  /\ totalResponses qs = totalResponses qs'
  /\ overallSkipRate qs = overallSkipRate qs'
  /\ levelAnswerCounts qs = levelAnswerCounts qs'
  /\ responseDistributionData qs = responseDistributionData qs'.
Proof.
  intros H Hb. destruct (totals_below qs Hb) as [Hba Hbs].
  pose proof (totalAnswered_perm _ _ H Hba) as Ha.
  pose proof (totalSkipped_perm _ _ H Hbs) as Hs.
  pose proof (rawCounts_perm _ _ H) as Hr.
  assert (totalResponses qs = totalResponses qs') as Ht
    by (unfold totalResponses; rewrite Ha, Hs; reflexivity).
  assert (finalCorrectResponses qs = finalCorrectResponses qs') as Hc.
  { unfold finalCorrectResponses, totalAnsweredFromInputs,
      correctResponses, incorrectResponses. rewrite Hr, Ha. reflexivity. }
  split; [symmetry; exact Ha|]. split; [symmetry; exact Hs|].
  split; [exact Ht|]. split; [|split].
  - unfold overallSkipRate. rewrite Ht, Hs. reflexivity.
  - rewrite (levelAnswerCounts_shape qs Hba).
    rewrite (levelAnswerCounts_shape qs') by (rewrite Ha; exact Hba).
    rewrite (answeredAt_perm "Beginner" _ _ H).
    rewrite (answeredAt_perm "Intermediate" _ _ H).
    rewrite (answeredAt_perm "Advanced" _ _ H). reflexivity.
  - unfold responseDistributionData, finalIncorrectResponses.
    rewrite Hc, Ha, Hs. reflexivity.
Qed.

Lemma statistics_ignore_question_order_witness :
  Permutation [answeredMcq; unflaggedInput] [unflaggedInput; answeredMcq]
  /\ totalResponses [answeredMcq; unflaggedInput] < 2 ^ 53
  /\ overallSkipRate [answeredMcq; unflaggedInput]
     = overallSkipRate [unflaggedInput; answeredMcq].
Proof.
  assert (Permutation [answeredMcq; unflaggedInput] [unflaggedInput; answeredMcq])
    as Hp by apply perm_swap.
  assert (totalResponses [answeredMcq; unflaggedInput] < 2 ^ 53) as Hb
    by (vm_compute; reflexivity).
  split; [exact Hp|]. split; [exact Hb|].
  apply (statistics_ignore_question_order _ _ Hp Hb).
Defined.

(** Above 2^53 the order shows: the same three counters give 2^53 when
    the large one comes first and 2^53 + 2 when it comes last. *)
Example order_shows_above_2_53 :
  totalAnswered [answeredAtLevel "Beginner" 9007199254740992;
                 answeredAtLevel "Beginner" 1; answeredAtLevel "Beginner" 1]
  = 9007199254740992
  /\ totalAnswered [answeredAtLevel "Beginner" 1; answeredAtLevel "Beginner" 1;
                    answeredAtLevel "Beginner" 9007199254740992]
     = 9007199254740994.
Proof. split; vm_compute; reflexivity. Qed.

(** X2.  While the number of responses is below 2^53, the three slices of
    the pie are non-negative and add up to it. *)
Theorem pie_slices_partition_responses (qs : list Question) :
  totalResponses qs < 2 ^ 53 ->
  Forall (fun v => 0 <= v) (responseDistributionData qs)
  /\ sumZ (responseDistributionData qs) = totalResponses qs.
Proof.
  intros Hb. destruct (totals_below qs Hb) as [Hba _].
  destruct (totalResponses_exact qs Hb) as [Hr _].
  pose proof (finalCorrectResponses_range qs Hba) as Hc.
  pose proof (finalIncorrectResponses_exact qs Hba) as Hi.
  pose proof (totalSkipped_nonneg qs) as Hs.
  unfold responseDistributionData. rewrite Hi, Hr.
  split.
  - repeat constructor; lia.
  - rewrite !sumZ_cons. unfold sumZ. cbn [fold_right]. lia.
Qed.

Lemma pie_slices_partition_responses_witness :
  totalResponses [answeredMcq; unflaggedInput] < 2 ^ 53
  /\ sumZ (responseDistributionData [answeredMcq; unflaggedInput])
     = totalResponses [answeredMcq; unflaggedInput].
Proof.
  assert (totalResponses [answeredMcq; unflaggedInput] < 2 ^ 53) as Hb
    by (vm_compute; reflexivity).
  split; [exact Hb|].
  apply (pie_slices_partition_responses [answeredMcq; unflaggedInput] Hb).
Defined.

(** X3.  When every flagged option is flagged correct, the whole answered
    counter goes to the correct slice. *)
Theorem all_flags_correct_distribution (qs : list Question) :
  incorrectResponses qs = 0 -> 0 < correctResponses qs ->
  totalAnswered qs < 2 ^ 53 ->
  finalCorrectResponses qs = totalAnswered qs
  /\ finalIncorrectResponses qs = 0.
Proof.
  intros Hi Hc Hb.
  assert (finalCorrectResponses qs = totalAnswered qs) as Hfc.
  { unfold finalCorrectResponses, totalAnsweredFromInputs.
    rewrite Hi, Z.add_0_r.
    destruct (Z.ltb_spec 0 (correctResponses qs)) as [_|Hle]; [|lia].
    apply Math_round_exact. apply fmul_one_l.
    - pose proof (totalAnswered_nonneg qs). lia.
    - apply fdiv_same. exact Hc. }
  split; [exact Hfc|].
  unfold finalIncorrectResponses, JS.subInt. rewrite Hfc, Z.sub_diag.
  reflexivity.
Qed.

(** An [Input] question with two options, both flagged correct. *)
Lemma all_flags_correct_distribution_witness :
  let q := mkQuestion "q" "who" "Input" "c" "Beginner" 7 None
             (Some [mkAnswerOption "a" (Some true);
                    mkAnswerOption "b" (Some true)]) in
  incorrectResponses [q] = 0 /\ 0 < correctResponses [q]
  /\ finalCorrectResponses [q] = totalAnswered [q]
  /\ finalIncorrectResponses [q] = 0.
Proof.
  cbv zeta. split; [reflexivity|]. split; [reflexivity|].
  apply all_flags_correct_distribution;
    [reflexivity | reflexivity | vm_compute; reflexivity].
Defined.



End AnalyticsMore.

(** ** The analytics page: rates, bars, tooltip, table, views *)

Section AnalyticsWidgetsFacts.
Import Analytics.
Import AnalyticsWidgets.



Lemma toFixed1_of_100 (x : Q) : (x == 100)%Q -> JS.toFixed 1 x = "100.0"%string.
Proof.
  intros Hx. rewrite toFixed1_shape by (rewrite Hx; discriminate).
  assert (tenths x = 1000%N) as Ht.
  { unfold tenths.
    replace (Qfloor (x * inject_Z (10 ^ Z.of_nat 1) + (1 # 2))) with 1000;
      [reflexivity|].
    change 1000 with (Qfloor (100 * inject_Z (10 ^ Z.of_nat 1) + (1 # 2))).
    apply Qfloor_comp. rewrite Hx. reflexivity. }
  rewrite Ht. reflexivity.
Qed.

(** X6.  Nothing skipped shows "0.0"; nothing answered and something skipped
    shows "100.0". *)
Theorem overallSkipRate_extremes (qs : list Question) :
  totalResponses qs < 2 ^ 53 ->
  (totalSkipped qs = 0 -> overallSkipRate qs = "0.0"%string)
  /\ (totalAnswered qs = 0 -> 0 < totalSkipped qs ->
      overallSkipRate qs = "100.0"%string).
Proof.
  intros Hb. split.
  - intros Hs. unfold overallSkipRate. rewrite Hs.
    destruct (0 <? totalResponses qs); [|reflexivity].
    change (inject_Z 0) with 0%Q. rewrite fdiv_zero.
    rewrite fmul_zero_l by reflexivity. reflexivity.
  - intros Ha Hs.
    assert (totalResponses qs = totalSkipped qs) as Hr.
    { unfold totalResponses, JS.addInt. rewrite Ha, Z.add_0_l.
      apply totalSkipped_double. }
    unfold overallSkipRate. rewrite Hr.
    destruct (Z.ltb_spec 0 (totalSkipped qs)) as [_|Hle]; [|lia].
    apply toFixed1_of_100.
    apply (fmul_one_l _ 100); [split; [lia | reflexivity]|].
    apply fdiv_same. exact Hs.
Qed.

Lemma overallSkipRate_extremes_witness :
  let skippedOnly := mkQuestion "s" "hard" "Input" "c" "Advanced" 0 (Some 4%N) None in
  totalResponses [skippedOnly] < 2 ^ 53
  /\ totalAnswered [skippedOnly] = 0 /\ 0 < totalSkipped [skippedOnly]
  /\ overallSkipRate [skippedOnly] = "100.0"%string
  /\ totalSkipped [answeredMcq] = 0
  /\ overallSkipRate [answeredMcq] = "0.0"%string.
Proof.
  cbv zeta. split; [vm_compute; reflexivity|]. split; [reflexivity|].
  split; [reflexivity|].
  split.
  - apply overallSkipRate_extremes; [vm_compute | | ]; reflexivity.
  - split; [reflexivity|].
    apply (overallSkipRate_extremes [answeredMcq]); [vm_compute|]; reflexivity.
Defined.

(** X7.  While the answered counter is below 2^53, the answers of
    questions whose level is none of the three fixed ones are in the
    header total and in no bar: the bars add up to the total minus those
    answers, so never to more than the total. *)
Theorem bars_miss_unrecognized_levels (qs : list Question) :
  totalAnswered qs < 2 ^ 53 ->
  totalAnswered qs
  = sumZ (levelAnswerCounts qs)
    + totalAnswered (filter (fun q => negb (recognizedLevel q)) qs)
  /\ sumZ (levelAnswerCounts qs) <= totalAnswered qs.
Proof.
  intros Hb. destruct (totalAnswered_exact qs Hb) as [He _].
  assert (sumZ (levelAnswerCounts qs)
          = sumZ (map answeredOf (filter recognizedLevel qs))) as Hbars.
  { rewrite (levelAnswerCounts_shape qs Hb). rewrite <- levels_partition.
    rewrite !sumZ_cons. unfold sumZ. cbn [fold_right]. lia. }
  rewrite Hbars, He.
  rewrite (part_answered_exact (fun q => negb (recognizedLevel q)) qs Hb).
  pose proof (sumZ_split answeredOf recognizedLevel qs) as Hsplit.
  pose proof (sumZ_map_nonneg answeredOf answeredOf_nonneg
                (filter (fun q => negb (recognizedLevel q)) qs)).
  split; lia.
Qed.

Lemma bars_miss_unrecognized_levels_witness :
  let qs := [answeredAtLevel "Advanced" 4; answeredAtLevel "Expert" 9] in
  totalAnswered qs < 2 ^ 53
  /\ totalAnswered qs
     = sumZ (levelAnswerCounts qs)
       + totalAnswered (filter (fun q => negb (recognizedLevel q)) qs).
Proof.
  cbv zeta.
  assert (totalAnswered [answeredAtLevel "Advanced" 4; answeredAtLevel "Expert" 9]
          < 2 ^ 53) as Hb by (vm_compute; reflexivity).
  split; [exact Hb|].
  apply (bars_miss_unrecognized_levels _ Hb).
Defined.

(** X8.  While the number of responses is below 2^53, the tooltip of the
    third slice shows the overall skip rate of the header; there is no
    tooltip beyond the three slices. *)
Theorem skipped_tooltip_is_overall_rate (qs : list Question) :
  totalResponses qs < 2 ^ 53 ->
  tooltipLabel qs 2 = Some ("Skipped: " ++ overallSkipRate qs ++ "%")%string
  /\ (forall i, (3 <= i)%nat -> tooltipLabel qs i = None).
Proof.
  intros Hb. split.
  - assert (tooltipPercentage (responseDistributionData qs) (totalSkipped qs)
            = overallSkipRate qs) as Hpct.
    { destruct (totals_below qs Hb) as [Hba _].
      destruct (totalResponses_exact qs Hb) as [Hr Hsum].
      pose proof (finalCorrectResponses_range qs Hba) as Hc.
      pose proof (finalIncorrectResponses_exact qs Hba) as Hi.
      pose proof (totalSkipped_nonneg qs) as Hs.
      unfold tooltipPercentage, overallSkipRate, responseDistributionData.
      cbn [fold_left]. rewrite Hi.
      rewrite (addInt_exact 0) by lia.
      rewrite (addInt_exact (0 + finalCorrectResponses qs)) by lia.
      rewrite (addInt_exact (0 + finalCorrectResponses qs
                             + (totalAnswered qs - finalCorrectResponses qs)))
        by lia.
      replace (0 + finalCorrectResponses qs
               + (totalAnswered qs - finalCorrectResponses qs)
               + totalSkipped qs) with (totalResponses qs) by lia.
      reflexivity. }
    unfold tooltipLabel, pieLabels.
    change (nth_error (responseDistributionData qs) 2)
      with (Some (totalSkipped qs)).
    cbn [nth_error]. rewrite Hpct. reflexivity.
  - intros i Hi. unfold tooltipLabel, pieLabels.
    destruct i as [|[|[|i]]]; try lia.
    cbn [nth_error]. destruct i; reflexivity.
Qed.

Lemma skipped_tooltip_is_overall_rate_witness :
  let q := mkQuestion "a" "first" "Input" "c" "Beginner" 57 (Some 23%N) None in
  totalResponses [q] < 2 ^ 53
  /\ tooltipLabel [q] 2 = Some "Skipped: 28.7%"%string.
Proof.
  cbv zeta.
  assert (totalResponses
            [mkQuestion "a" "first" "Input" "c" "Beginner" 57 (Some 23%N) None]
          < 2 ^ 53) as Hb by (vm_compute; reflexivity).
  split; [exact Hb|].
  destruct (skipped_tooltip_is_overall_rate _ Hb) as [Ht _].
  rewrite Ht. vm_compute. reflexivity.
Defined.

(** Above 2^53 the two rates can part: with one option in eight flagged
    correct, 10293942005418330 answers and 686262800361222 skips, the
    incorrect slice is rounded, the tooltip divides by the sum of the
    slices and shows 6.2 where the header shows 6.3. *)
Example tooltip_parts_from_header_above_2_53 :
  let flags := [true; false; false; false; false; false; false; false] in
  let q := mkQuestion "q1" "who" "Input" "c" "Beginner" 10293942005418330
             (Some 686262800361222%N)
             (Some (map (fun b => mkAnswerOption "a" (Some b)) flags)) in
  finalIncorrectResponses [q] = 9007199254741040
  /\ overallSkipRate [q] = "6.3"%string
  /\ tooltipLabel [q] 2 = Some "Skipped: 6.2%"%string.
Proof. cbv zeta. repeat split; vm_compute; reflexivity. Qed.

(** *** The table *)

Lemma length_substring_prefix (n : nat) (s : string) :
  (n <= String.length s)%nat -> String.length (substring 0 n s) = n.
Proof.
  revert s. induction n as [|n IH]; intros s H.
  - destruct s; reflexivity.
  - destruct s as [|c s]; simpl in *; [lia|]. rewrite IH by lia. reflexivity.
Qed.

Lemma substring_is_prefix (n : nat) (s : string) :
  exists rest, s = (substring 0 n s ++ rest)%string.
Proof.
  revert s. induction n as [|n IH]; intros s.
  - exists s. destruct s; reflexivity.
  - destruct s as [|c s]; simpl.
    + exists EmptyString. reflexivity.
    + destruct (IH s) as [rest Hr]. exists rest. congruence.
Qed.

Lemma questionCell_bounds (text : string) :
  (String.length (questionCell text) <= 43)%nat
  /\ ((String.length text <= 40)%nat -> questionCell text = text)
  /\ ((40 < String.length text)%nat ->
      exists rest, questionCell text = (substring 0 40 text ++ "...")%string
                   /\ text = (substring 0 40 text ++ rest)%string
                   /\ String.length (substring 0 40 text) = 40%nat).
Proof.
  unfold questionCell.
  destruct (Nat.ltb_spec 40 (String.length text)) as [Hlong|Hshort].
  - pose proof (length_substring_prefix 40 text ltac:(lia)) as Hlen.
    split; [rewrite length_append, Hlen; simpl; lia|].
    split; [lia|]. intros _.
    destruct (substring_is_prefix 40 text) as [rest Hr].
    exists rest. split; [reflexivity|]. split; [exact Hr | exact Hlen].
  - split; [lia|]. split; [reflexivity | lia].
Qed.

(** X9.  The table shows the row "No questions found." exactly when no
    question of the list has the type [Input]; otherwise it has one row
    for each entry of the ranking, in its order, so as many rows as the
    smaller of 3 and the number of [Input] questions of the list; a row
    shows the rate of its entry followed by "%" and the question text, cut
    to its first 40 characters and three dots when it is longer. *)
Theorem mostSkippedTable_rows (qs : list Question) :
  match mostSkippedTable qs with
  | NoQuestionsRow =>
      Forall (fun q => questionType q <> "Input"%string) qs
  | Rows cells =>
      Exists (fun q => questionType q = "Input"%string) qs
      /\ List.length cells
         = Nat.min 3 (List.length
                        (filter (fun q => if string_dec (questionType q) "Input"
                                          then true else false) qs))
      /\ Forall2
           (fun cell e =>
              snd cell = (skipRate e ++ "%")%string
              /\ (String.length (fst cell) <= 43)%nat
              /\ fst cell
                 = (if (40 <? String.length (question (source e)))%nat
                    then (substring 0 40 (question (source e)) ++ "...")%string
                    else question (source e)))
           cells (mostSkippedInputQuestions qs)
  end.
Proof.
  unfold mostSkippedTable.
  pose proof (inputsOf_spec qs) as Hspec.
  rewrite inputQuestions_inputsOf.
  destruct (inputsOf qs) as [|q rest] eqn:Hin; cbn [List.length Nat.eqb].
  - apply Forall_forall. intros q Hq Htype.
    apply (proj2 (Hspec q)). split; assumption.
  - split; [|split].
    + apply Exists_exists. exists q.
      apply (proj1 (Hspec q)). left. reflexivity.
    + rewrite length_map. unfold mostSkippedInputQuestions.
      rewrite length_firstn. unfold rankedInputQuestions.
      rewrite (Permutation_length (sort_perm _ _)), length_map.
      rewrite inputQuestions_inputsOf. fold (inputsOf qs). rewrite Hin.
      reflexivity.
    + induction (mostSkippedInputQuestions qs) as [|e l IH]; cbn [map];
        constructor; [|exact IH].
      cbn [fst snd]. split; [reflexivity|].
      split; [apply questionCell_bounds | reflexivity].
Qed.

End AnalyticsWidgetsFacts.

Section ViewsMore.
Import Analytics.
Import AnalyticsWidgets.

Lemma run_app (st : State) (before after : list Event) :
  run st (before ++ after) = run (run st before) after.
Proof. unfold run. apply fold_left_app. Qed.

Lemma settled_render (st : State) (outcome : FetchOutcome) :
  render (settleFetch (startFetch st) outcome) = settledView outcome.
Proof.
  destruct outcome as [qs fetched|message];
    unfold settleFetch, settledView; cbn [startFetch].
  - unfold render. cbn. destruct qs; reflexivity.
  - destruct (isEmptySignal message); [reflexivity|].
    unfold render. cbn. destruct message as [m|]; cbn; [|reflexivity].
    destruct (JS.truthy m); reflexivity.
Qed.

Lemma empty_marker_in_empty_string (marker : string) :
  marker <> EmptyString -> ~ occursIn marker "".
Proof.
  intros Hne (b & a & Hb). destruct b; [|discriminate Hb].
  destruct marker; [contradiction | discriminate Hb].
Qed.

(** X10.  When a fetch settles and no other fetch has settled since the
    last start (the settling directly follows a start, whatever starts
    and settlings came before), the page is not left loading, and which
    view it shows depends on the outcome alone: empty for zero questions
    or an empty-signal message, the error view for any other non-empty
    message, and the ready view otherwise.  A failure whose message is
    absent or empty therefore shows the ready view, over the questions
    stored before. *)
Theorem settled_view_by_outcome
    (st : State) (before : list Event) (outcome : FetchOutcome) :
  let final := run st (before ++ [Start; Settle outcome]) in
  render final <> LoadingView
  /\ render final = render (handleRefresh initialState outcome)
  /\ (forall m,
        render final = ErrorView m <->
        outcome = Rejected (Some m) /\ m <> EmptyString
        /\ isEmptySignal (Some m) = false)
  /\ (render final = EmptyView <->
        (exists fetchedAnswers, outcome = Resolved [] fetchedAnswers)
        \/ (exists message, outcome = Rejected message
                            /\ isEmptySignal message = true))
  /\ (forall message,
        outcome = Rejected message -> JS.truthyOpt message = false ->
        render final = ReadyView
        /\ questions final = questions (run st before)).
Proof.
  cbv zeta. rewrite run_app. set (st' := run st before).
  change (run st' [Start; Settle outcome])
    with (settleFetch (startFetch st') outcome).
  unfold handleRefresh. rewrite !settled_render.
  split; [|split; [reflexivity|split; [|split]]].
  - destruct outcome as [qs fetched|[m|]]; cbn.
    + destruct qs; discriminate.
    + destruct (_ || _); [discriminate|]. destruct (JS.truthy m); discriminate.
    + discriminate.
  - intros m. destruct outcome as [qs fetched|[m'|]]; cbn [settledView].
    + split; [destruct qs; discriminate | intros [H _]; discriminate H].
    + destruct (isEmptySignal (Some m')) eqn:Hsig.
      * split; [discriminate|]. intros (H & _ & Hs). congruence.
      * destruct (JS.truthy m') eqn:Ht.
        -- apply truthy_iff in Ht. split.
           ++ intros H. assert (m = m') as -> by congruence.
              repeat split; assumption.
           ++ intros (H & _). congruence.
        -- split; [discriminate|]. intros (H & Hne & _).
           assert (m' = m) as Hm by congruence. rewrite <- Hm in Hne.
           apply truthy_iff in Hne. congruence.
    + split; [discriminate | intros [H _]; discriminate H].
  - destruct outcome as [qs fetched|message]; cbn [settledView].
    + destruct qs as [|q qs]; cbn.
      * split; [intros _; left; exists fetched; reflexivity | reflexivity].
      * split; [discriminate|].
        intros [[fa H]|[msg [H _]]]; discriminate H.
    + destruct (isEmptySignal message) eqn:Hsig.
      * split; [|reflexivity]. intros _. right. exists message.
        split; [reflexivity | exact Hsig].
      * split.
        -- destruct message as [m|]; [destruct (JS.truthy m)|]; discriminate.
        -- intros [[fa H]|[msg [H Hs]]]; [discriminate H|]. congruence.
  - intros message -> Ht. cbn [settledView].
    assert (isEmptySignal message = false) as Hsig.
    { destruct message as [m|]; [|reflexivity].
      cbn in Ht. unfold JS.truthy in Ht.
      destruct (String.eqb_spec m "") as [Hm|]; [|discriminate Ht].
      rewrite Hm. reflexivity. }
    rewrite Hsig. split.
    + destruct message as [m|]; [|reflexivity]. cbn in Ht. rewrite Ht. reflexivity.
    + unfold settleFetch. rewrite Hsig. reflexivity.
Qed.

(** X11.  After any settling the troubleshooting list is on screen in two
    cases only: the fetch failed with a message that names a network
    error, carries no empty marker, and the empty flag was not set; or
    the fetch brought questions while such a message of an earlier
    failure was still stored.  When the settling directly follows a
    start only the first case is left. *)
Theorem troubleshooting_only_for_network_errors
    (st : State) (before : list Event) (outcome : FetchOutcome) :
  (troubleshootingShown (settleFetch st outcome) = true <->
   exists m, occursIn "Network error" m
     /\ ((outcome = Rejected (Some m) /\ isEmptySignal (Some m) = false
          /\ isEmpty st = false)
         \/ (err st = Some m
             /\ exists q qs fetched, outcome = Resolved (q :: qs) fetched)))
  /\ (troubleshootingShown (run st (before ++ [Start; Settle outcome])) = true <->
      exists m, outcome = Rejected (Some m)
                /\ occursIn "Network error" m
                /\ isEmptySignal (Some m) = false).
Proof.
  assert (forall m, occursIn "Network error" m -> JS.truthy m = true) as Htruthy.
  { intros m Hocc. apply truthy_iff. intros ->.
    apply (empty_marker_in_empty_string "Network error"); [discriminate|].
    exact Hocc. }
  assert (forall s : State,
            troubleshootingShown (settleFetch s outcome) = true <->
            exists m, occursIn "Network error" m
              /\ ((outcome = Rejected (Some m) /\ isEmptySignal (Some m) = false
                   /\ isEmpty s = false)
                  \/ (err s = Some m
                      /\ exists q qs fetched,
                           outcome = Resolved (q :: qs) fetched))) as Hany.
  { intros s. unfold troubleshootingShown, render.
    destruct outcome as [[|q qs] fetched|message]; cbn [settleFetch].
    - cbn. split; [discriminate|].
      intros (m & _ & [(H & _)|(_ & q & qs & f & H)]); discriminate H.
    - cbn [loading isEmpty err List.length Nat.eqb negb andb].
      rewrite andb_true_r. split.
      + destruct (err s) as [m|]; cbn [JS.truthyOpt]; [|discriminate].
        destruct (JS.truthy m); [|discriminate].
        rewrite includes_iff. intros Hocc. exists m. split; [exact Hocc|].
        right. split; [reflexivity|]. exists q, qs, fetched. reflexivity.
      + intros (m & Hocc & [(H & _)|(He & _)]); [discriminate H|].
        rewrite He. cbn [JS.truthyOpt]. rewrite (Htruthy m Hocc).
        apply includes_iff. exact Hocc.
    - destruct (isEmptySignal message) eqn:Hsig.
      + cbn [loading isEmpty err]. split; [discriminate|].
        intros (m & _ & [(H & Hs & _)|(_ & q & qs & f & H)]);
          [|discriminate H].
        congruence.
      + cbn [loading isEmpty err].
        destruct (isEmpty s) eqn:Hemp.
        * split; [discriminate|].
          intros (m & _ & [(_ & _ & H)|(_ & q & qs & f & H)]); discriminate H.
        * cbn [negb]. rewrite andb_true_r. split.
          -- destruct message as [m|]; cbn [JS.truthyOpt]; [|discriminate].
             destruct (JS.truthy m); [|discriminate].
             rewrite includes_iff. intros Hocc. exists m. split; [exact Hocc|].
             left. repeat split. exact Hsig.
          -- intros (m & Hocc & [(H & _)|(_ & q & qs & f & H)]);
               [|discriminate H].
             assert (message = Some m) as -> by congruence.
             cbn [JS.truthyOpt]. rewrite (Htruthy m Hocc).
             apply includes_iff. exact Hocc. }
  split; [apply Hany|].
  rewrite run_app. set (st' := run st before).
  change (run st' [Start; Settle outcome])
    with (settleFetch (startFetch st') outcome).
  rewrite Hany. cbn [startFetch isEmpty err]. split.
  - intros (m & Hocc & [(H & Hs & _)|(H & _)]); [|discriminate H].
    exists m. repeat split; assumption.
  - intros (m & H & Hocc & Hs). exists m. split; [exact Hocc|].
    left. repeat split; assumption.
Qed.

(** X30.  Two fetches can overlap.  When one of them fails and the next
    settling brings questions, with no start between the two, the fresh
    questions are stored but the page shows the error view of the
    failure: its message, or the "No questions found" text when the
    message carried an empty marker; the troubleshooting list is shown
    along with it when the message names a network error.  Only a
    failure without a message (or with an empty one) lets the ready view
    through. *)
Theorem overlapping_fetches_keep_stale_error
    (st : State) (before : list Event) (message : option string)
    (q : Question) (qs : list Question) (fetched : list Answer) :
  let final :=
    run st (before ++ [Settle (Rejected message);
                       Settle (Resolved (q :: qs) fetched)]) in
  questions final = q :: qs
  /\ loading final = false
  /\ render final
     = (if isEmptySignal message then ErrorView noQuestionsMessage
        else match message with
             | Some m => if JS.truthy m then ErrorView m else ReadyView
             | None => ReadyView
             end)
  /\ troubleshootingShown final
     = (negb (isEmptySignal message)
        && match message with
           | Some m => JS.includes m "Network error"
           | None => false
           end)
  /\ render (run st (before ++ [Start; Start;
                                Settle (Rejected (Some "Network error: timeout"%string));
                                Settle (Resolved (q :: qs) fetched)]))
     = ErrorView "Network error: timeout".
Proof.
  cbv zeta. rewrite !run_app. set (st' := run st before).
  split; [|split; [|split; [|split]]].
  - reflexivity.
  - reflexivity.
  - unfold run, troubleshootingShown, render. cbn [fold_left step settleFetch].
    destruct (isEmptySignal message) eqn:Hsig; [reflexivity|].
    cbn. destruct message as [m|]; cbn; [|reflexivity].
    destruct (JS.truthy m); reflexivity.
  - unfold run, troubleshootingShown, render. cbn [fold_left step settleFetch].
    destruct (isEmptySignal message) eqn:Hsig; [reflexivity|].
    cbn. destruct message as [m|]; cbn; [|reflexivity].
    destruct (JS.truthy m) eqn:Ht; [reflexivity|].
    unfold JS.truthy in Ht.
    destruct (String.eqb_spec m "") as [->|]; [reflexivity | discriminate Ht].
  - reflexivity.
Qed.

End ViewsMore.

Section RankingMore.
Import Analytics.

Lemma StronglySorted_app_dominates {A : Type} (R : A -> A -> Prop)
    (l1 l2 : list A) :
  StronglySorted R (l1 ++ l2) -> Forall (fun a => Forall (R a) l2) l1.
Proof.
  induction l1 as [|a l1 IH]; intros H; [constructor|].
  simpl in H. inversion H as [|? ? Hs Hall]; subst.
  constructor; [|apply IH; exact Hs].
  apply Forall_app in Hall. tauto.
Qed.



End RankingMore.

(** ** The survey builder: levels, populating, adding, deleting *)

Section BuilderMore.
Import Survey.
Import SurveyNav.

Lemma levelName_inj l l' : levelName l = levelName l' -> l = l'.
Proof. destruct l, l'; intros H; try reflexivity; discriminate H. Qed.

Lemma asLevel_levelName l : asLevel (levelName l) = Some l.
Proof. destruct l; reflexivity. Qed.

Lemma asLevel_Some s l : asLevel s = Some l -> s = levelName l.
Proof.
  unfold asLevel. intros H. apply find_some in H as [_ H].
  apply String.eqb_eq in H. congruence.
Qed.

(** X13.  Level names and levels go back and forth: a string is accepted as a
    level exactly when it is, to the letter, one of the three names. *)
Theorem level_names_round_trip (s : string) (l : Level) :
  asLevel (levelName l) = Some l
  /\ (asLevel s = Some l <-> s = levelName l)
  /\ (asLevel s = None <-> forall l', s <> levelName l').
Proof.
  split; [apply asLevel_levelName|]. split.
  - split; [apply asLevel_Some | intros ->; apply asLevel_levelName].
  - split.
    + intros H l' ->. rewrite asLevel_levelName in H. discriminate H.
    + intros H. destruct (asLevel s) as [l'|] eqn:Hs; [|reflexivity].
      exfalso. exact (H l' (asLevel_Some s l' Hs)).
Qed.

(** *** Populating *)

Lemma groupStep_get m q lvl :
  get (groupStep m q) lvl
  = get m lvl ++ (if (questionLevel q =? levelName lvl)%string then [q] else []).
Proof.
  unfold groupStep.
  destruct (String.eqb_spec (questionLevel q) (levelName lvl)) as [He|Hne].
  - rewrite He, asLevel_levelName.
    destruct lvl; cbn [levelName JS.truthy String.eqb negb];
      rewrite get_set_same; reflexivity.
  - rewrite app_nil_r.
    destruct (JS.truthy (questionLevel q)); [|reflexivity].
    destruct (asLevel (questionLevel q)) as [l'|] eqn:Hl; [|reflexivity].
    apply asLevel_Some in Hl.
    apply get_set_other. intros ->. contradiction.
Qed.

Lemma group_get qs : forall m lvl,
  get (fold_left groupStep qs m) lvl = get m lvl ++ fetchedAt lvl qs.
Proof.
  induction qs as [|q qs IH]; intros m lvl; cbn [fold_left].
  - unfold fetchedAt. cbn. rewrite app_nil_r. reflexivity.
  - rewrite IH, groupStep_get, <- app_assoc. f_equal.
    unfold fetchedAt. cbn [filter].
    destruct (questionLevel q =? levelName lvl)%string; reflexivity.
Qed.

Lemma ensure_get m lvl :
  get (fold_left
         (fun m lvl =>
            if (List.length (get m lvl) =? 0)%nat
            then set m lvl (get m lvl ++ [placeholder lvl])
            else m)
         LEVELS m) lvl
  = match get m lvl with
    | [] => [placeholder lvl]
    | g => g
    end.
Proof.
  destruct m as [[|b bs] [|i ms] [|a rest]]; destruct lvl; reflexivity.
Qed.

(** X14.  Once the builder is initialised, a non-empty fetch replaces the working
    set: each level holds the fetched questions of exactly that level, in
    the order of the fetch, or its placeholder when there is none;
    questions of any other level are dropped; tab and cursor stay as they
    were. *)
Theorem populate_groups_by_level (questions : list Question) (st : State) :
  showUIImmediately st = true -> questions <> [] ->
  (forall lvl,
     get (questionsByLevel (populate questions st)) lvl
     = match fetchedAt lvl questions with
       | [] => [placeholder lvl]
       | g => g
       end)
  /\ (forall q, In q (workingSet (populate questions st)) ->
        In q questions \/ exists lvl, q = placeholder lvl)
  /\ currentTab (populate questions st) = currentTab st
  /\ currentIndex (populate questions st) = currentIndex st.
Proof.
  intros Hui Hne.
  assert (forall lvl,
            get (questionsByLevel (populate questions st)) lvl
            = match fetchedAt lvl questions with
              | [] => [placeholder lvl]
              | g => g
              end) as Hget.
  { intros lvl. unfold populate. rewrite Hui.
    destruct questions as [|q0 rest]; [congruence|].
    cbn [negb orb List.length Nat.eqb withMap questionsByLevel].
    rewrite ensure_get.
    change (fun (m : QMap) (q : Question) =>
              if JS.truthy (questionLevel q)
              then match asLevel (questionLevel q) with
                   | Some lvl0 => set m lvl0 (get m lvl0 ++ [q])
                   | None => m
                   end
              else m) with groupStep.
    rewrite group_get. destruct lvl; reflexivity. }
  split; [exact Hget|]. split; [|split].
  - intros q Hin. apply in_working_set in Hin as [lvl Hin].
    rewrite Hget in Hin.
    destruct (fetchedAt lvl questions) as [|g gs] eqn:Hf.
    + right. exists lvl. destruct Hin as [<-|[]]. reflexivity.
    + left. rewrite <- Hf in Hin. unfold fetchedAt in Hin.
      apply filter_In in Hin. tauto.
  - unfold populate. rewrite Hui.
    destruct questions; [congruence | reflexivity].
  - unfold populate. rewrite Hui.
    destruct questions; [congruence | reflexivity].
Qed.

Lemma populate_groups_by_level_witness :
  showUIImmediately (initialize initialState) = true
  /\ [soleBeginnerQuestion] <> []
  /\ get (questionsByLevel loadedBuilder) Advanced = [placeholder Advanced].
Proof.
  split; [reflexivity|]. split; [discriminate|].
  apply (populate_groups_by_level [soleBeginnerQuestion] (initialize initialState));
    [reflexivity | discriminate].
Defined.

(** *** Adding *)

(** X15.  Adding a question appends one empty, incomplete question at the end of
    the chosen level, carrying the category of the question that was last
    there; the cursor moves onto the new question and the other levels
    are not touched. *)
Theorem onAddQuestion_appends (lvl : Level) (st : State) :
  let st' := onAddQuestion lvl st in
  exists category,
    get (questionsByLevel st') lvl
    = get (questionsByLevel st) lvl ++ [newQuestion category lvl]
    /\ category
       = match last (map Some (get (questionsByLevel st) lvl)) None with
         | Some q => questionCategory q
         | None => EmptyString
         end
    /\ (forall lvl', lvl' <> lvl ->
          get (questionsByLevel st') lvl' = get (questionsByLevel st) lvl')
    /\ currentTab st' = lvl
    /\ nth_error (get (questionsByLevel st') (currentTab st')) (currentIndex st')
       = Some (newQuestion category lvl)
    /\ isComplete (newQuestion category lvl) = false.
Proof.
  cbv zeta. unfold onAddQuestion.
  set (list := get (questionsByLevel st) lvl).
  set (category :=
         match nth_error list (List.length list - 1) with
         | Some q => if JS.truthy (questionCategory q) then questionCategory q
                     else EmptyString
         | None => EmptyString
         end).
  exists category.
  assert (category
          = match last (map Some list) None with
            | Some q => questionCategory q
            | None => EmptyString
            end) as Hcat.
  { unfold category. clearbody list.
    induction list as [|q l IH] using rev_ind; [reflexivity|].
    rewrite map_app. cbn [map]. rewrite last_last, length_app. cbn [List.length].
    replace (List.length l + 1 - 1)%nat with (List.length l) by lia.
    rewrite nth_error_app2, Nat.sub_diag by lia. cbn [nth_error].
    unfold JS.truthy.
    destruct (String.eqb_spec (questionCategory q) "") as [->|]; reflexivity. }
  cbn [withCursor updateTabQuestions withMap questionsByLevel currentTab currentIndex].
  rewrite get_set_same.
  split; [reflexivity|]. split; [exact Hcat|]. split; [|split; [reflexivity|split]].
  - intros lvl' Hne. apply get_set_other. congruence.
  - rewrite nth_error_app2, Nat.sub_diag by lia. reflexivity.
  - apply newQuestion_incomplete.
Qed.

End BuilderMore.

(** ** The survey builder: deleting, moving, editing *)

Section BuilderEdits.
Import Survey.
Import SurveyNav.

Lemma removeAt_firstn_skipn {A : Type} (l : list A) : forall idx,
  removeAt idx l = firstn idx l ++ skipn (S idx) l.
Proof.
  induction l as [|x l IH]; intros idx.
  - destruct idx; reflexivity.
  - destruct idx as [|idx]; [reflexivity|].
    cbn [removeAt firstn skipn app]. rewrite IH. reflexivity.
Qed.

Lemma nth_error_replaceAt_same {A : Type} (v : A) (l : list A) : forall idx,
  (idx < List.length l)%nat -> nth_error (replaceAt idx v l) idx = Some v.
Proof.
  induction l as [|x l IH]; intros idx H; simpl in H; [lia|].
  destruct idx as [|idx]; [reflexivity|]. cbn. apply IH. lia.
Qed.

Lemma nth_error_replaceAt_other {A : Type} (v : A) (l : list A) : forall idx j,
  j <> idx -> nth_error (replaceAt idx v l) j = nth_error l j.
Proof.
  induction l as [|x l IH]; intros idx j H.
  - destruct idx; reflexivity.
  - destruct idx as [|idx], j as [|j]; try reflexivity; try congruence.
    cbn. apply IH. congruence.
Qed.

Lemma length_workingSet st :
  List.length (workingSet st)
  = (List.length (get (questionsByLevel st) Beginner)
     + List.length (get (questionsByLevel st) Intermediate)
     + List.length (get (questionsByLevel st) Advanced))%nat.
Proof.
  unfold workingSet, LEVELS. cbn [flat_map].
  rewrite !length_app. cbn [List.length]. lia.
Qed.



(** X17.  With a single entry in the level, or with a cursor that addresses no
    entry, deleting changes nothing and calls nothing. *)
Theorem onDeleteCurrent_guarded (st : State) :
  (List.length (get (questionsByLevel st) (currentTab st)) <= 1)%nat
  \/ (List.length (get (questionsByLevel st) (currentTab st)) <= currentIndex st)%nat ->
  onDeleteCurrent st = (st, []).
Proof.
  intros [Hone|Hout]; unfold onDeleteCurrent.
  - destruct (Nat.leb_spec (List.length (get (questionsByLevel st) (currentTab st))) 1);
      [reflexivity | lia].
  - destruct (List.length (get (questionsByLevel st) (currentTab st)) <=? 1)%nat;
      [reflexivity|].
    apply nth_error_None in Hout. rewrite Hout. reflexivity.
Qed.

Lemma onDeleteCurrent_guarded_witness :
  (List.length (get (questionsByLevel loadedBuilder) (currentTab loadedBuilder)) <= 1)%nat
  /\ onDeleteCurrent loadedBuilder = (loadedBuilder, []).
Proof.
  split; [cbn; lia|].
  apply (onDeleteCurrent_guarded loadedBuilder). left. cbn. lia.
Defined.

(** X18.  Confirming "delete all": the level is reset to its single placeholder,
    the other levels are not touched, the dialog closes and the cursor
    goes to 0; the backend receives one call with exactly the saved
    questions of the level, in order, and no call when none was saved. *)
Theorem confirmDeleteAll_resets_level (st : State) :
  let lvl := levelToDelete st in
  let saved := filter (fun q => negb (_id q =? "")%string)
                 (get (questionsByLevel st) lvl) in
  let st' := fst (confirmDeleteAllQuestions st) in
  get (questionsByLevel st') lvl = [placeholder lvl]
  /\ (forall lvl', lvl' <> lvl ->
        get (questionsByLevel st') lvl' = get (questionsByLevel st) lvl')
  /\ snd (confirmDeleteAllQuestions st)
     = match saved with
       | [] => []
       | _ => [DeleteQuestions saved]
       end
  /\ currentIndex st' = O /\ showDeleteDialog st' = false
  /\ currentTab st' = currentTab st.
Proof.
  cbv zeta. unfold confirmDeleteAllQuestions. cbn [fst snd].
  cbn [updateTabQuestions withMap questionsByLevel currentIndex
       showDeleteDialog currentTab levelToDelete].
  rewrite get_set_same.
  split; [reflexivity|].
  split; [intros lvl' Hne; apply get_set_other; congruence|].
  split; [|repeat split].
  unfold JS.truthy.
  destruct (filter (fun q => negb (_id q =? "")%string)
              (get (questionsByLevel st) (levelToDelete st))); reflexivity.
Qed.

(** X19.  Moving the current question to another level: it leaves its old level,
    is appended to the end of the new one with nothing but its level
    changed, the third level is not touched, no question is lost or
    doubled, and the cursor follows the question. *)
Theorem reassign_moves_question
    (st : State) (value : string) (newLevel : Level) (q : Question) :
  asLevel value = Some newLevel ->
  newLevel <> currentTab st ->
  nth_error (get (questionsByLevel st) (currentTab st)) (currentIndex st) = Some q ->
  exists st',
    onUpdateQuestion FQuestionLevel value st = Some st'
    /\ get (questionsByLevel st') (currentTab st)
       = firstn (currentIndex st) (get (questionsByLevel st) (currentTab st))
         ++ skipn (S (currentIndex st)) (get (questionsByLevel st) (currentTab st))
    /\ get (questionsByLevel st') newLevel
       = get (questionsByLevel st) newLevel
         ++ [setField q FQuestionLevel value]
    /\ (forall lvl, lvl <> currentTab st -> lvl <> newLevel ->
          get (questionsByLevel st') lvl = get (questionsByLevel st) lvl)
    /\ List.length (workingSet st') = List.length (workingSet st)
    /\ currentTab st' = newLevel
    /\ nth_error (get (questionsByLevel st') (currentTab st')) (currentIndex st')
       = Some (setField q FQuestionLevel value).
Proof.
  intros Hlvl Hne Hnth.
  pose proof (asLevel_Some _ _ Hlvl) as Hval.
  assert (currentIndex st < List.length (get (questionsByLevel st) (currentTab st)))%nat
    as Hidx by (apply nth_error_Some; congruence).
  unfold onUpdateQuestion. rewrite Hnth. cbn [isField]. rewrite Hlvl.
  eexists. split; [reflexivity|].
  cbn [withCursor updateTabQuestions withMap questionsByLevel currentTab currentIndex].
  rewrite <- Hval.
  assert (forall l, get (set (set (questionsByLevel st) (currentTab st)
                           (removeAt (currentIndex st)
                              (get (questionsByLevel st) (currentTab st))))
                      newLevel l) (currentTab st)
                    = removeAt (currentIndex st)
                        (get (questionsByLevel st) (currentTab st))) as Hold.
  { intros l. rewrite get_set_other by exact Hne. apply get_set_same. }
  split; [rewrite Hold; apply removeAt_firstn_skipn|].
  split; [apply get_set_same|].
  split.
  { intros lvl H1 H2. rewrite get_set_other by congruence.
    apply get_set_other. congruence. }
  split.
  { rewrite !length_workingSet.
    cbn [withCursor updateTabQuestions withMap questionsByLevel].
    pose proof (length_removeAt (get (questionsByLevel st) (currentTab st))
                  (currentIndex st) Hidx) as Hrem.
    destruct (currentTab st) eqn:Htab, newLevel; try congruence;
      cbn [get set beginner intermediate advanced] in *;
      rewrite ?length_app; cbn [List.length]; lia. }
  split; [reflexivity|].
  rewrite get_set_same, nth_error_app2, Nat.sub_diag by lia. reflexivity.
Qed.

Lemma reassign_moves_question_witness :
  asLevel "Advanced" = Some Advanced
  /\ Advanced <> currentTab loadedBuilder
  /\ nth_error (get (questionsByLevel loadedBuilder) (currentTab loadedBuilder))
       (currentIndex loadedBuilder) = Some soleBeginnerQuestion
  /\ exists st',
       onUpdateQuestion FQuestionLevel "Advanced" loadedBuilder = Some st'
       /\ List.length (workingSet st') = List.length (workingSet loadedBuilder).
Proof.
  split; [reflexivity|]. split; [discriminate|]. split; [reflexivity|].
  destruct (reassign_moves_question loadedBuilder "Advanced" Advanced
              soleBeginnerQuestion eq_refl ltac:(discriminate) eq_refl)
    as (st' & Hrun & _ & _ & _ & Hlen & _).
  exists st'. split; [exact Hrun | exact Hlen].
Defined.

(** X20.  Choosing for a question the level it already has does not leave it in
    place: the list of the level keeps every entry and gains a copy of the
    question at its end, where the cursor goes. *)
Theorem reassign_to_same_level_appends_copy
    (st : State) (value : string) (q : Question) :
  asLevel value = Some (currentTab st) ->
  nth_error (get (questionsByLevel st) (currentTab st)) (currentIndex st) = Some q ->
  exists st',
    onUpdateQuestion FQuestionLevel value st = Some st'
    /\ get (questionsByLevel st') (currentTab st)
       = get (questionsByLevel st) (currentTab st)
         ++ [setField q FQuestionLevel value]
    /\ currentTab st' = currentTab st
    /\ currentIndex st' = List.length (get (questionsByLevel st) (currentTab st))
    /\ (questionLevel q = value -> setField q FQuestionLevel value = q).
Proof.
  intros Hlvl Hnth. pose proof (asLevel_Some _ _ Hlvl) as Hval.
  unfold onUpdateQuestion. rewrite Hnth. cbn [isField]. rewrite Hlvl.
  eexists. split; [reflexivity|].
  cbn [withCursor updateTabQuestions withMap questionsByLevel currentTab currentIndex].
  rewrite get_set_same, <- Hval.
  split; [reflexivity|]. split; [reflexivity|]. split; [reflexivity|].
  intros Hq. destruct q; cbn in *. congruence.
Qed.

Lemma reassign_to_same_level_appends_copy_witness :
  asLevel "Beginner" = Some (currentTab loadedBuilder)
  /\ nth_error (get (questionsByLevel loadedBuilder) (currentTab loadedBuilder))
       (currentIndex loadedBuilder) = Some soleBeginnerQuestion
  /\ exists st',
       onUpdateQuestion FQuestionLevel "Beginner" loadedBuilder = Some st'
       /\ get (questionsByLevel st') (currentTab loadedBuilder)
          = [soleBeginnerQuestion; soleBeginnerQuestion].
Proof.
  split; [reflexivity|]. split; [reflexivity|].
  destruct (reassign_to_same_level_appends_copy loadedBuilder "Beginner"
              soleBeginnerQuestion eq_refl eq_refl)
    as (st' & Hrun & Hlist & _).
  exists st'. split; [exact Hrun | exact Hlist].
Defined.

End BuilderEdits.

(** ** The survey builder: editing in place, counting, the cursor *)

Section BuilderCursor.
Import Survey.
Import SurveyNav.
Import Layout.

(** X21.  An edit that is not a move to another level rewrites only the entry
    under the cursor: the other entries, the other levels and the cursor
    stay; the entry gets the new value in the chosen field, and loses its
    answer options exactly when its type is set to "Input". *)
Theorem edit_in_place_is_local
    (st : State) (field : Field) (value : string) (q : Question) :
  (if isField field FQuestionLevel then asLevel value else None) = None ->
  nth_error (get (questionsByLevel st) (currentTab st)) (currentIndex st) = Some q ->
  exists st' q',
    onUpdateQuestion field value st = Some st'
    /\ nth_error (get (questionsByLevel st') (currentTab st)) (currentIndex st)
       = Some q'
    /\ (forall j, j <> currentIndex st ->
          nth_error (get (questionsByLevel st') (currentTab st)) j
          = nth_error (get (questionsByLevel st) (currentTab st)) j)
    /\ (forall lvl, lvl <> currentTab st ->
          get (questionsByLevel st') lvl = get (questionsByLevel st) lvl)
    /\ currentTab st' = currentTab st /\ currentIndex st' = currentIndex st
    /\ q' = setField
              (if isField field FQuestionType && (value =? "Input")%string
               then withoutAnswers q else q)
              field value
    /\ answers q'
       = (if isField field FQuestionType && (value =? "Input")%string
          then None else answers q).
Proof.
  intros Hbranch Hnth.
  assert (currentIndex st < List.length (get (questionsByLevel st) (currentTab st)))%nat
    as Hidx by (apply nth_error_Some; congruence).
  unfold onUpdateQuestion. rewrite Hnth, Hbranch.
  eexists. eexists. split; [reflexivity|].
  cbn [updateTabQuestions withMap questionsByLevel currentTab currentIndex].
  rewrite get_set_same.
  split; [apply nth_error_replaceAt_same; exact Hidx|].
  split; [intros j Hj; apply nth_error_replaceAt_other; exact Hj|].
  split; [intros lvl Hne; apply get_set_other; congruence|].
  split; [reflexivity|]. split; [reflexivity|].
  destruct q as [i t ty c l ta ts an].
  destruct field; cbn [isField andb]; try (split; reflexivity).
  destruct (value =? "Input")%string; destruct an as [opts|];
    cbn; split; reflexivity.
Qed.

Lemma edit_in_place_is_local_witness :
  (if isField FQuestion FQuestionLevel then asLevel "Why?" else None) = None
  /\ nth_error (get (questionsByLevel loadedBuilder) (currentTab loadedBuilder))
       (currentIndex loadedBuilder) = Some soleBeginnerQuestion
  /\ exists st' q',
       onUpdateQuestion FQuestion "Why?" loadedBuilder = Some st'
       /\ nth_error (get (questionsByLevel st') (currentTab loadedBuilder))
            (currentIndex loadedBuilder) = Some q'.
Proof.
  split; [reflexivity|]. split; [reflexivity|].
  destruct (edit_in_place_is_local loadedBuilder FQuestion "Why?"
              soleBeginnerQuestion eq_refl eq_refl)
    as (st' & q' & Hrun & Hq & _).
  exists st', q'. split; [exact Hrun | exact Hq].
Defined.

(** X22.  The "completed" counter of the header is the size of the batch that
    create and update submit, and the batch is a sublist of the working
    set in its order. *)
Theorem completedCount_is_batch_size (st : State) :
  exists batch,
    handleCreateNew true st = [CreateQuestions batch]
    /\ handleUpdate true st = [UpdateQuestions batch]
    /\ List.length batch = completedCount st
    /\ batch = filter isComplete (workingSet st)
    /\ (completedCount st <= List.length (workingSet st))%nat.
Proof.
  exists (filter isComplete (workingSet st)).
  split; [reflexivity|]. split; [reflexivity|].
  assert (workingSet st
          = beginner (questionsByLevel st) ++ intermediate (questionsByLevel st)
            ++ advanced (questionsByLevel st)) as Hws.
  { unfold workingSet, LEVELS. cbn [flat_map get]. rewrite app_nil_r.
    reflexivity. }
  split; [unfold completedCount; rewrite Hws; reflexivity|].
  split; [reflexivity|].
  unfold completedCount. rewrite <- Hws. apply filter_length_le.
Qed.

(** X23.  With no complete question in the working set the confirmed create and
    update still call the backend, with an empty batch; this is the case
    right after start-up and after switching to create mode. *)
Theorem empty_batch_is_still_submitted (st : State) :
  completedCount st = O ->
  handleCreateNew true st = [CreateQuestions []]
  /\ handleUpdate true st = [UpdateQuestions []].
Proof.
  intros H. unfold completedCount in H.
  assert (filter isComplete
            (flat_map (fun lvl => get (questionsByLevel st) lvl) LEVELS) = [])
    as Hb.
  { unfold LEVELS. cbn [flat_map get]. rewrite app_nil_r.
    apply length_zero_iff_nil. exact H. }
  unfold handleCreateNew, handleUpdate. rewrite Hb. split; reflexivity.
Qed.

Lemma empty_batch_is_still_submitted_witness :
  completedCount (switchToCreateMode true loadedBuilder) = O
  /\ completedCount (initialize initialState) = O
  /\ handleCreateNew true (switchToCreateMode true loadedBuilder)
     = [CreateQuestions []].
Proof.
  split; [reflexivity|]. split; [reflexivity|].
  apply (empty_batch_is_still_submitted (switchToCreateMode true loadedBuilder)).
  reflexivity.
Defined.

(** *** The cursor *)

Lemma withCursor_same st : withCursor st (currentTab st) (currentIndex st) = st.
Proof. destruct st; reflexivity. Qed.

Lemma withCursor_twice st t i t' i' :
  withCursor (withCursor st t i) t' i' = withCursor st t' i'.
Proof. reflexivity. Qed.

(** X24.  Stepping keeps the cursor on an entry: back stops at the first entry,
    forward stops at the last, a step forward and a step back return to
    the same state, and the two handlers the page declares without using
    them do what the inline ones do. *)
Theorem stepping_keeps_cursor_valid (st : State) :
  cursorValid st ->
  cursorValid (onPrev st)
  /\ (exists st', onNext st = Some st' /\ cursorValid st'
                  /\ (currentIndex st' = currentIndex st
                      <-> S (currentIndex st)
                          = List.length (get (questionsByLevel st) (currentTab st))))
  /\ (currentIndex (onPrev st) = currentIndex st <-> currentIndex st = O)
  /\ ((S (currentIndex st) < List.length (get (questionsByLevel st) (currentTab st)))%nat ->
      option_map onPrev (onNext st) = Some st)
  /\ ((0 < currentIndex st)%nat -> onNext (onPrev st) = Some st)
  /\ onPrevQuestion st = onPrev st
  /\ Some (onNextQuestion st) = onNext st.
Proof.
  unfold cursorValid. intros Hv.
  set (len := List.length (get (questionsByLevel st) (currentTab st))) in *.
  assert (len <> O) as Hlen by lia.
  assert (onNext st
          = Some (withCursor st (currentTab st)
                    (Nat.min (currentIndex st + 1) (len - 1)))) as Hnext.
  { unfold onNext. fold len.
    destruct (Nat.eqb_spec len 0); [contradiction | reflexivity]. }
  split; [unfold onPrev; cbn; fold len; lia|].
  split.
  { eexists. split; [exact Hnext|]. cbn. fold len. lia. }
  split; [unfold onPrev; cbn; lia|].
  split.
  { intros Hs. rewrite Hnext. cbn [option_map]. f_equal.
    unfold onPrev. rewrite withCursor_twice. cbn [withCursor currentTab currentIndex].
    replace (Nat.max (Nat.min (currentIndex st + 1) (len - 1) - 1) 0)
      with (currentIndex st) by lia.
    apply withCursor_same. }
  split.
  { intros Hs. unfold onNext, onPrev.
    cbn [withCursor currentTab currentIndex questionsByLevel]. fold len.
    destruct (Nat.eqb_spec len 0); [contradiction|]. f_equal.
    fold (withCursor st (currentTab st) (Nat.max (currentIndex st - 1) 0)).
    rewrite withCursor_twice.
    replace (Nat.min (Nat.max (currentIndex st - 1) 0 + 1) (len - 1))
      with (currentIndex st) by lia.
    apply withCursor_same. }
  split.
  { unfold onPrevQuestion, onPrev.
    destruct (Nat.ltb_spec 0 (currentIndex st)) as [Hp|Hz].
    - f_equal. lia.
    - replace (Nat.max (currentIndex st - 1) 0) with (currentIndex st) by lia.
      symmetry. apply withCursor_same. }
  rewrite Hnext. f_equal. unfold onNextQuestion. fold len.
  destruct (Nat.ltb_spec (currentIndex st) (len - 1)) as [Hp|Hz].
  - f_equal. lia.
  - replace (Nat.min (currentIndex st + 1) (len - 1)) with (currentIndex st) by lia.
    symmetry. apply withCursor_same.
Qed.

Lemma stepping_keeps_cursor_valid_witness :
  cursorValid loadedBuilder /\ cursorValid (onPrev loadedBuilder).
Proof.
  assert (cursorValid loadedBuilder) as Hv by (unfold cursorValid; cbn; lia).
  split; [exact Hv|].
  apply (stepping_keeps_cursor_valid loadedBuilder Hv).
Defined.

(** *** What the layout shows *)

(** X25.  The question card is on screen exactly when the cursor addresses an
    entry of the current level, and then it shows that entry, marked first
    at index 0 and last at the end of the list; a level without entries
    shows "No Questions Yet"; a cursor beyond a non-empty list shows
    nothing at all. *)
Theorem pageContent_follows_cursor (st : State) :
  match pageContent st with
  | NoQuestionsYet => get (questionsByLevel st) (currentTab st) = []
  | Card q index isFirst isLast =>
      cursorValid st
      /\ nth_error (get (questionsByLevel st) (currentTab st)) (currentIndex st)
         = Some q
      /\ index = currentIndex st
      /\ (isFirst = true <-> currentIndex st = O)
      /\ (isLast = true
          <-> S (currentIndex st)
              = List.length (get (questionsByLevel st) (currentTab st)))
  | Blank =>
      get (questionsByLevel st) (currentTab st) <> []
      /\ ~ cursorValid st
  end.
Proof.
  unfold pageContent, mainContent, cursorValid.
  destruct (get (questionsByLevel st) (currentTab st)) as [|q0 rest] eqn:Hl;
    [reflexivity|].
  cbn [List.length Nat.eqb].
  destruct (nth_error (q0 :: rest) (currentIndex st)) as [q|] eqn:Hnth.
  - assert (currentIndex st < List.length (q0 :: rest))%nat as Hidx
      by (apply nth_error_Some; congruence).
    cbn [List.length] in *.
    split; [exact Hidx|]. split; [reflexivity|]. split; [reflexivity|].
    split; [apply Nat.eqb_eq|].
    rewrite Nat.eqb_eq. lia.
  - apply nth_error_None in Hnth. cbn [List.length] in Hnth.
    split; [discriminate | lia].
Qed.

(** X26.  A level left without entries shows "No Questions Yet"; its "Add"
    button brings back an addressable, empty question as first and last
    card. *)
Theorem add_recovers_empty_level (lvl : Level) (st : State) :
  get (questionsByLevel st) lvl = [] ->
  pageContent (onSelectQuestion lvl 0 st) = NoQuestionsYet
  /\ pageContent (onAddQuestion lvl st) = Card (newQuestion "" lvl) 0 true true
  /\ get (questionsByLevel (onAddQuestion lvl st)) lvl = [placeholder lvl].
Proof.
  intros He. split; [|split].
  - unfold pageContent, onSelectQuestion. cbn. rewrite He. reflexivity.
  - unfold pageContent, onAddQuestion. rewrite He. cbn.
    rewrite get_set_same. reflexivity.
  - unfold onAddQuestion. rewrite He. cbn. rewrite get_set_same. reflexivity.
Qed.

Lemma add_recovers_empty_level_witness :
  get (questionsByLevel initialState) Advanced = []
  /\ pageContent (onAddQuestion Advanced initialState)
     = Card (newQuestion "" Advanced) 0 true true.
Proof.
  split; [reflexivity|].
  apply (add_recovers_empty_level Advanced initialState). reflexivity.
Defined.

End BuilderCursor.

(** ** The second analytics page *)

Section DashboardFacts.
Import Dashboard.
Context (getTime : string -> option Q).

Lemma existsb_eqb_In (x : string) (l : list string) :
  existsb (String.eqb x) l = true <-> In x l.
Proof.
  rewrite existsb_exists. split.
  - intros (y & Hy & He). apply String.eqb_eq in He. congruence.
  - intros H. exists x. split; [exact H | apply String.eqb_refl].
Qed.

Lemma setOf_fold (l : list string) : forall acc,
  NoDup acc ->
  let r := fold_left
             (fun acc x => if existsb (String.eqb x) acc then acc else acc ++ [x])
             l acc in
  NoDup r /\ (forall x, In x r <-> In x acc \/ In x l).
Proof.
  induction l as [|y l IH]; intros acc Hnd; cbn [fold_left].
  - split; [exact Hnd|]. intros x. cbn. tauto.
  - destruct (existsb (String.eqb y) acc) eqn:He.
    + destruct (IH acc Hnd) as [H1 H2]. split; [exact H1|].
      intros x. rewrite H2. cbn [In]. apply existsb_eqb_In in He.
      split; [tauto|]. intros [H|[<-|H]]; tauto.
    + assert (~ In y acc) as Hny.
      { intros Hin. apply existsb_eqb_In in Hin. congruence. }
      assert (NoDup (acc ++ [y])) as Hnd'.
      { apply NoDup_app; [exact Hnd | repeat constructor; intros [] |].
        intros x Hx [<-|[]]. contradiction. }
      destruct (IH (acc ++ [y]) Hnd') as [H1 H2]. split; [exact H1|].
      intros x. rewrite H2, in_app_iff. cbn [In]. tauto.
Qed.

Lemma setOf_spec (l : list string) :
  NoDup (setOf l) /\ (forall x, In x (setOf l) <-> In x l).
Proof.
  destruct (setOf_fold l [] (NoDup_nil _)) as [H1 H2].
  split; [exact H1|]. intros x. unfold setOf. rewrite H2. cbn. tauto.
Qed.

(** X27.  The set of recently answered questions has no duplicate and at most
    five members, each the question of a fetched answer; with five answers
    or fewer it holds the question of every answer. *)
Theorem recentIds_at_most_five (answers : list Answer) :
  NoDup (recentIds getTime answers)
  /\ (List.length (recentIds getTime answers) <= 5)%nat
  /\ (forall id, In id (recentIds getTime answers) ->
        exists a, In a answers /\ questionId a = id)
  /\ ((List.length answers <= 5)%nat ->
      forall a, In a answers -> In (questionId a) (recentIds getTime answers)).
Proof.
  unfold recentIds.
  set (top := firstn 5 (sortedAnswers getTime answers)).
  destruct (setOf_spec (map questionId top)) as [Hnd Hin].
  assert (Permutation (sortedAnswers getTime answers) answers) as Hperm
    by apply sort_perm.
  split; [exact Hnd|]. split; [|split].
  - apply Nat.le_trans with (List.length (map questionId top)).
    + apply NoDup_incl_length; [exact Hnd|].
      intros x Hx. apply Hin. exact Hx.
    + rewrite length_map. unfold top. rewrite length_firstn. lia.
  - intros id Hid. apply Hin in Hid. apply in_map_iff in Hid as (a & Ha & Hat).
    exists a. split; [|exact Ha].
    apply (Permutation_in _ Hperm). unfold top in Hat.
    rewrite <- (firstn_skipn 5 (sortedAnswers getTime answers)).
    apply in_or_app. left. exact Hat.
  - intros Hlen a Ha. apply Hin. apply in_map.
    unfold top. rewrite firstn_all2.
    + apply (Permutation_in _ (Permutation_sym Hperm)). exact Ha.
    + rewrite (Permutation_length Hperm). exact Hlen.
Qed.

Lemma newestFirst_key a b :
  dated getTime a -> dated getTime b ->
  newestFirst getTime a b
  = Some (JS.fsub (timeKey getTime b) (timeKey getTime a)).
Proof.
  intros [x Hx] [y Hy]. unfold newestFirst, timeKey. rewrite Hx, Hy.
  reflexivity.
Qed.

Lemma keyGe_noOlder l :
  Forall (dated getTime) l ->
  StronglySorted (keyGe (timeKey getTime)) l ->
  StronglySorted (noOlder getTime) l.
Proof.
  intros Hr Hs. induction Hs as [|x l Hs IH Hall]; [constructor|].
  inversion Hr as [|? ? Hx Hl]; subst.
  constructor; [apply IH; exact Hl|].
  rewrite Forall_forall in *. intros y Hy.
  specialize (Hall y Hy). specialize (Hl y Hy).
  destruct Hx as [vx Hvx]. destruct Hl as [vy Hvy].
  exists vx, vy. split; [exact Hvx|]. split; [exact Hvy|].
  unfold keyGe, timeKey in Hall. rewrite Hvx, Hvy in Hall. exact Hall.
Qed.

(** X28.  When every answer carries a valid date, the answers are ordered from
    the newest to the oldest, answers of the same instant keep their
    order, and the five that feed the recent set are no older than any of
    the others. *)
Theorem recent_answers_are_newest (answers : list Answer) :
  Forall (dated getTime) answers ->
  let sorted := sortedAnswers getTime answers in
  Permutation sorted answers
  /\ StronglySorted (noOlder getTime) sorted
  /\ (forall t, filter (keyIs (timeKey getTime) t) sorted
                = filter (keyIs (timeKey getTime) t) answers)
  /\ Forall (fun a => Forall (noOlder getTime a) (skipn 5 sorted))
       (firstn 5 sorted).
Proof.
  intros Hd sorted.
  assert (Permutation sorted answers) as Hperm by apply sort_perm.
  assert (StronglySorted (noOlder getTime) sorted) as Hs.
  { apply keyGe_noOlder.
    - apply (Permutation_Forall (Permutation_sym Hperm)). exact Hd.
    - apply (sort_sorted (newestFirst getTime) (timeKey getTime)
               (dated getTime) newestFirst_key). exact Hd. }
  split; [exact Hperm|]. split; [exact Hs|]. split.
  - intros t.
    apply (sort_stable (newestFirst getTime) (timeKey getTime)
             (dated getTime) newestFirst_key). exact Hd.
  - apply StronglySorted_app_dominates. rewrite firstn_skipn. exact Hs.
Qed.

End DashboardFacts.

Section DashboardViews.
Import Dashboard.

Lemma recent_answers_are_newest_witness :
  let older := mkAnswer "a1" "q1" (Some "100"%string) in
  let newer := mkAnswer "a2" "q2" (Some "200"%string) in
  Forall (dated millis) [older; newer]
  /\ sortedAnswers millis [older; newer] = [newer; older]
  /\ StronglySorted (noOlder millis) (sortedAnswers millis [older; newer]).
Proof.
  cbv zeta.
  assert (Forall (dated millis)
            [mkAnswer "a1" "q1" (Some "100"%string);
             mkAnswer "a2" "q2" (Some "200"%string)]) as Hd.
  { repeat constructor; eexists; reflexivity. }
  split; [exact Hd|]. split; [vm_compute; reflexivity|].
  apply (recent_answers_are_newest millis _ Hd).
Defined.

(** X29.  This page has no empty state: a fetch that succeeds shows the ready
    view even with zero questions, a failure with a non-empty message
    shows the error view whatever the message says, and the refresh and
    "Try Again" buttons, which drop what their fetch returns, leave the
    page as it is. *)
Theorem dashboard_views (getTime : string -> option Q) (st : State) :
  (forall qs fetched, render (doFetch getTime st (Resolved qs fetched)) = ReadyView)
  /\ (forall m, m <> EmptyString ->
        render (doFetch getTime st (Rejected (Some m))) = ErrorView m)
  /\ (forall m, render (doFetch getTime st (Rejected m)) <> LoadingView
                /\ questions (doFetch getTime st (Rejected m)) = questions st)
  /\ (forall outcomes,
        fold_left onRefresh outcomes st = st).
Proof.
  split; [reflexivity|]. split; [|split].
  - intros m Hm. unfold render, doFetch. cbn.
    apply truthy_iff in Hm. rewrite Hm. reflexivity.
  - intros m. split; [|reflexivity]. unfold render, doFetch. cbn.
    destruct m as [m|]; [destruct (JS.truthy m)|]; discriminate.
  - intros outcomes. induction outcomes as [|o os IH]; [reflexivity|].
    cbn [fold_left]. exact IH.
Qed.

End DashboardViews.
